(** * Response evaluation and report generation of the interview room

    A shallow embedding of the scoring logic of
    [frontend/src/pages/InterviewRoom.tsx]: the answer scorer
    [evaluateAnswer], the two event handlers that record a score
    ([stopRecording], [skipQuestion]) and the report aggregation of
    [endInterview]; then the transcript handler, the walk through the
    questions and the colours of the results page.

    Modelling conventions.
    - A JavaScript [number] is an exact rational ([Q]); [Math.round] is
      [floor (x + 1/2)], an integer ([Z]).  The functions below compute
      without the rounding errors of binary floating point.  Where a
      statement compares a rounded result with the exact value of an
      expression it allows [roundingSlack] for them, and
      [overallScoreDouble] evaluates the overall score in binary64 to
      show where the two part.
    - A JavaScript string is a [string] whose characters stand for code
      units below 256 (ASCII and Latin-1).
    - [null]/[undefined] are [None]; [x || d] and [!x] follow the
      truthiness of the value at hand.
    - The record of category scores is an association list in insertion
      order, as [Object.entries] enumerates ordinary string keys: keys
      that are not integer-like and that [Object.prototype] does not
      define (see [inheritedKey]). *)

From Stdlib Require Import ZArith QArith Qminmax Qround Lia Lqa Bool.
From Stdlib Require Import List String Ascii DecimalString SpecFloat.
Import ListNotations.

Local Open Scope string_scope.

(** ** The JavaScript primitives the component uses *)

Module JS.

(** Code units that [String.prototype.trim] strips (below 256). *)
Definition isWhiteSpace (c : ascii) : bool :=
  let n := nat_of_ascii c in
  ((9 <=? n) && (n <=? 13) || (n =? 32) || (n =? 160))%nat.

(** Code units with a lower-case partner 32 positions up (below 256). *)
Definition isUpper (c : ascii) : bool :=
  let n := nat_of_ascii c in
  ((65 <=? n) && (n <=? 90)
   || (192 <=? n) && (n <=? 222) && negb (n =? 215))%nat.

Definition toLowerChar (c : ascii) : ascii :=
  if isUpper c then ascii_of_nat (nat_of_ascii c + 32) else c.

(** [toLowerCase] on code units below 256, where it maps one unit to
    one unit.  Beyond them JavaScript can lengthen a string (U+0130
    becomes two units); such text is outside this development. *)
Fixpoint toLowerCase (s : string) : string :=
  match s with
  | EmptyString => EmptyString
  | String c t => String (toLowerChar c) (toLowerCase t)
  end.

Fixpoint trimStart (s : string) : string :=
  match s with
  | EmptyString => EmptyString
  | String c t => if isWhiteSpace c then trimStart t else s
  end.

(** [trimEnd] keeps a character when it is not white space or when
    something survives after it. *)
Fixpoint trimEnd (s : string) : string :=
  match s with
  | EmptyString => EmptyString
  | String c t =>
      match trimEnd t with
      | EmptyString => if isWhiteSpace c then EmptyString else String c EmptyString
      | t' => String c t'
      end
  end.

Definition trim (s : string) : string := trimEnd (trimStart s).

(** [s.split(sep)] for a one-character separator: the pieces between
    the separators, empty pieces included. *)
Fixpoint split (sep : ascii) (s : string) : list string :=
  match s with
  | EmptyString => [EmptyString]
  | String c t =>
      if Ascii.eqb c sep then EmptyString :: split sep t
      else match split sep t with
           | [] => [String c EmptyString]
           | w :: ws => String c w :: ws
           end
  end.

(** [s.includes(sub)]. *)
Fixpoint includes (s sub : string) : bool :=
  if String.prefix sub s then true
  else match s with
       | EmptyString => false
       | String _ t => includes t sub
       end.

(** [Math.round]: the nearest integer, halves going up. *)
Definition Math_round (x : Q) : Z := Qfloor (x + (1 # 2)).

Definition Math_min (x y : Q) : Q := Qmin x y.
Definition Math_max (x y : Q) : Q := Qmax x y.

(** A natural number in a template literal. *)
Definition showNat (n : nat) : string :=
  NilEmpty.string_of_uint (Nat.to_uint n).

End JS.

(** ** Data *)

Record Question := mkQuestion {
  question_text : string;
  question_type : option string;
  expected_keywords : option (list string)
}.

Record ScoredAnswer := mkScored {
  idx : nat;
  score : Q;
  skipped : bool
}.

(** ** The answer scorer *)

Definition connectives : list string :=
  ["for example"; "such as"; "because"; "therefore"].

Definition enumerators : list string :=
  ["first"; "second"; "third"; "step"].

Definition natQ (n : nat) : Q := inject_Z (Z.of_nat n).

(** [!answer || answer.trim().length < 5] *)
Definition tooShort (answer : option string) : bool :=
  match answer with
  | None => true
  | Some a =>
      match a with
      | EmptyString => true
      | _ => (String.length (JS.trim a) <? 5)%nat
      end
  end.

Definition wordCount (a : string) : nat := List.length (JS.split " " a).

(** [question?.expected_keywords || []] *)
Definition keywordsOf (question : option Question) : list string :=
  match question with
  | Some q => match expected_keywords q with Some ks => ks | None => [] end
  | None => []
  end.

Definition keywordScore (a : string) (question : option Question) : Q :=
  let answerLower := JS.toLowerCase a in
  let expectedKeywords := keywordsOf question in
  if (0 <? List.length expectedKeywords)%nat then
    let matches :=
      List.length
        (filter (fun kw => JS.includes answerLower (JS.toLowerCase kw))
                expectedKeywords) in
    (natQ matches / natQ (List.length expectedKeywords)) * 10
  else 5.

Definition lengthScore (a : string) : Q :=
  JS.Math_min 10 (natQ (wordCount a) / 10).

Definition structureScore (a : string) : Q :=
  let answerLower := JS.toLowerCase a in
  let s0 := 4 in
  let s1 := if existsb (fun w => JS.includes answerLower w) connectives
            then s0 + 2 else s0 in
  let s2 := if existsb (fun w => JS.includes answerLower w) enumerators
            then s1 + 2 else s1 in
  if (30 <=? wordCount a)%nat then s2 + 2 else s2.

Definition weighted (a : string) (question : option Question) : Q :=
  keywordScore a question * (4 # 10)
  + lengthScore a * (3 # 10)
  + structureScore a * (3 # 10).

Definition evaluateAnswer (answer : option string) (question : option Question) : Q :=
  if tooShort answer then 0
  else match answer with
       | None => 0
       | Some a =>
           inject_Z
             (JS.Math_round
                (JS.Math_max 1 (JS.Math_min 10 (weighted a question)) * 10))
           / 10
       end.

(** ** The report aggregator *)

Record Report := mkReport {
  overall_score : Z;
  grade : string;
  questions_answered : nat;
  total_questions : nat;
  questions_skipped : nat;
  category_scores : list (string * Z);
  strengths : list string;
  weaknesses : list string;
  improvement_suggestions : list string;
  placement_ready : string
}.

(** One turn of the reconciliation loop:
    [if (!allScores.find(s => s.idx === i)) allScores.push(...)]. *)
Definition reconcileStep (allScores : list ScoredAnswer) (i : nat)
  : list ScoredAnswer :=
  match find (fun s => (idx s =? i)%nat) allScores with
  | Some _ => allScores
  | None => (allScores ++ [mkScored i 0 true])%list
  end.

(** [allScores] after the loop over [0 <= i < questions.length]. *)
Definition reconcile (questions : list Question)
    (questionScores : list ScoredAnswer) : list ScoredAnswer :=
  fold_left reconcileStep (seq 0 (List.length questions)) questionScores.

(** [allScores.reduce((sum, s) => sum + s.score, 0)], summed exactly;
    [sumScoresDouble] is the same fold on doubles. *)
Definition sumScores (allScores : list ScoredAnswer) : Q :=
  fold_left (fun sum s => sum + score s) allScores 0.

Definition avgScore (totalQuestions : nat) (allScores : list ScoredAnswer) : Q :=
  if (0 <? totalQuestions)%nat
  then sumScores allScores / natQ totalQuestions
  else 0.

(** [questions[s.idx]?.question_type || 'general'] *)
Definition qTypeOf (questions : list Question) (s : ScoredAnswer) : string :=
  match nth_error questions (idx s) with
  | Some q =>
      match question_type q with
      | Some EmptyString => "general"
      | Some t => t
      | None => "general"
      end
  | None => "general"
  end.

(** [if (!categoryScores[qType]) categoryScores[qType] = [];
     categoryScores[qType].push(x)], for a key that [Object.prototype]
    does not define (for an [inheritedKey] the lookup finds the
    inherited member and [push] throws). *)
Fixpoint pushScore (qType : string) (x : Q) (categoryScores : list (string * list Q))
  : list (string * list Q) :=
  match categoryScores with
  | [] => [(qType, [x])]
  | (k, v) :: rest =>
      if String.eqb k qType then (k, (v ++ [x])%list) :: rest
      else (k, v) :: pushScore qType x rest
  end.

Definition groupScores (questions : list Question) (allScores : list ScoredAnswer)
  : list (string * list Q) :=
  fold_left (fun cs s => pushScore (qTypeOf questions s) (score s) cs) allScores [].

(** [Math.round((scores.reduce((a, b) => a + b, 0) / scores.length) * 10)] *)
Definition categoryAverage (scores : list Q) : Z :=
  JS.Math_round ((fold_left Qplus scores 0 / natQ (List.length scores)) * 10).

Definition averageCategories (categoryScores : list (string * list Q))
  : list (string * Z) :=
  map (fun e => (fst e, categoryAverage (snd e))) categoryScores.

(** [catAvg[key]], [None] for [undefined]. *)
Fixpoint lookup (key : string) (catAvg : list (string * Z)) : option Z :=
  match catAvg with
  | [] => None
  | (k, v) :: rest => if String.eqb k key then Some v else lookup key rest
  end.

Definition gradeOf (overallScore : Z) : string :=
  if (overallScore >=? 90)%Z then "A+"
  else if (overallScore >=? 80)%Z then "A"
  else if (overallScore >=? 70)%Z then "B+"
  else if (overallScore >=? 60)%Z then "B"
  else if (overallScore >=? 50)%Z then "C+"
  else if (overallScore >=? 40)%Z then "C"
  else if (overallScore >=? 30)%Z then "D"
  else "F".

(** The [forEach] over [Object.entries(catAvg)] that fills both lists. *)
Definition remarkCategory (acc : list string * list string) (e : string * Z)
  : list string * list string :=
  let (type, avg) := e in
  if (avg >=? 70)%Z then ((fst acc ++ [("Strong " ++ type ++ " skills")%string])%list, snd acc)
  else if (avg <? 40)%Z
       then (fst acc, (snd acc ++ [("Needs improvement in " ++ type ++ " areas")%string])%list)
       else acc.

(** [if (c) xs.push(x)] *)
Definition pushIf {A} (c : bool) (x : A) (xs : list A) : list A :=
  if c then (xs ++ [x])%list else xs.

Definition isEmpty {A} (xs : list A) : bool :=
  match xs with [] => true | _ => false end.

Definition below (bound : Z) (v : option Z) : bool :=
  match v with
  | Some x => (x <? bound)%Z
  | None => false
  end.

Definition placementOf (overallScore : Z) : string :=
  if (overallScore >=? 70)%Z then "Ready"
  else if (overallScore >=? 50)%Z then "Needs Work"
  else "Not Ready".

Definition endInterview (questions : list Question)
    (questionScores : list ScoredAnswer) : Report :=
  let allScores := reconcile questions questionScores in
  let totalQuestions := List.length questions in
  let answeredCount := List.length (filter (fun s => negb (skipped s)) allScores) in
  let skippedCount := List.length (filter (fun s => skipped s) allScores) in
  let overallScore := JS.Math_round (avgScore totalQuestions allScores * 10) in
  let catAvg := averageCategories (groupScores questions allScores) in
  let remarks := fold_left remarkCategory catAvg ([], []) in
  let strengths0 := fst remarks in
  let weaknesses0 := snd remarks in
  let weaknesses1 :=
    pushIf (0 <? skippedCount)%nat
           ("Skipped " ++ JS.showNat skippedCount ++ " question(s)") weaknesses0 in
  let strengths1 :=
    pushIf ((answeredCount =? totalQuestions)%nat && (overallScore >=? 60)%Z)
           "Answered all questions" strengths0 in
  let strengths2 :=
    pushIf (isEmpty strengths1) "Participated in the interview" strengths1 in
  let weaknesses2 :=
    pushIf (isEmpty weaknesses1) "No major weaknesses identified" weaknesses1 in
  let s1 := pushIf (overallScore <? 70)%Z
              "Practice answering questions out loud to improve fluency" [] in
  let s2 := pushIf (below 60 (lookup "technical" catAvg))
              "Review core technical concepts and practice coding problems" s1 in
  let s3 := pushIf (below 60 (lookup "hr" catAvg))
              "Prepare STAR method responses for behavioral questions" s2 in
  let s4 := pushIf (0 <? skippedCount)%nat
              "Try to attempt all questions instead of skipping" s3 in
  let s5 := pushIf (overallScore <? 50)%Z
              "Consider taking mock interviews to build confidence" s4 in
  let suggestions := pushIf (isEmpty s5)
              "Continue practicing to maintain your skills" s5 in
  mkReport overallScore (gradeOf overallScore) answeredCount totalQuestions
           skippedCount catAvg strengths2 weaknesses2 suggestions
           (placementOf overallScore).

(** ** The handlers that record a score

    Only the state that reaches the report is kept: the current
    question and its number, the transcript, and the list of scores.
    Speech, feedback text and timers are left out.  [questionNumber]
    starts at 1 and only grows, so [questionNumber - 1] is a natural
    number. *)

Record RoomState := mkRoom {
  currentQuestion : option Question;
  questionNumber : nat;
  transcript : string;
  questionScores : list ScoredAnswer
}.

(** [setQuestionScores(prev => [...prev, entry])] *)
Definition setQuestionScores (st : RoomState) (entry : ScoredAnswer) : RoomState :=
  mkRoom (currentQuestion st) (questionNumber st) (transcript st)
         (questionScores st ++ [entry])%list.

Definition stopRecording (st : RoomState) : RoomState :=
  match JS.trim (transcript st) with
  | EmptyString => st
  | _ =>
      let score := evaluateAnswer (Some (transcript st)) (currentQuestion st) in
      setQuestionScores st (mkScored (questionNumber st - 1) score false)
  end.

Definition skipQuestion (st : RoomState) : RoomState :=
  setQuestionScores st (mkScored (questionNumber st - 1) 0 true).

(** ** Notions used in the statements *)

(** Some entry of [scored] carries index [i]. *)
Definition hasIdx (i : nat) (scored : list ScoredAnswer) : bool :=
  existsb (fun s => (idx s =? i)%nat) scored.

(** No two entries of [scored] carry the same index. *)
Fixpoint distinctIdx (scored : list ScoredAnswer) : bool :=
  match scored with
  | [] => true
  | s :: rest => negb (hasIdx (idx s) rest) && distinctIdx rest
  end.

(** At most one entry per index, every index below [n]. *)
Definition wellIndexed (n : nat) (scored : list ScoredAnswer) : bool :=
  distinctIdx scored && forallb (fun s => (idx s <? n)%nat) scored.

(** Every score lies in [[0, 10]]. *)
Definition scoresBounded (scored : list ScoredAnswer) : bool :=
  forallb (fun s => Qle_bool 0 (score s) && Qle_bool (score s) 10) scored.

(** The question indices below [n] without an entry in [scored]. *)
Definition missing (n : nat) (scored : list ScoredAnswer) : list nat :=
  filter (fun i => negb (hasIdx i scored)) (seq 0 n).

(** The entry the reconciliation loop pushes for index [i]. *)
Definition synthesized (i : nat) : ScoredAnswer := mkScored i 0 true.

(** The score of question [i]: that of its entry, 0 without one. *)
Definition scoreAt (scored : list ScoredAnswer) (i : nat) : Q :=
  match find (fun s => (idx s =? i)%nat) scored with
  | Some s => score s
  | None => 0
  end.

Definition sumQ (l : list Q) : Q := fold_right Qplus 0 l.

(** The sum of the scores of questions [0 .. n-1]. *)
Definition perQuestionTotal (n : nat) (scored : list ScoredAnswer) : Q :=
  sumQ (map (scoreAt scored) (seq 0 n)).

(** Score [x] sits in the group of key [k]. *)
Definition grouped (k : string) (x : Q) (cs : list (string * list Q)) : Prop :=
  exists v, In (k, v) cs /\ In x v.

(** The question of an entry is absent, or its type is absent or the
    empty string. *)
Definition untyped (questions : list Question) (s : ScoredAnswer) : Prop :=
  nth_error questions (idx s) = None
  \/ exists q, nth_error questions (idx s) = Some q
               /\ (question_type q = None \/ question_type q = Some "").



(** Binary64 arithmetic, rounding to nearest with ties to even. *)
Module Double.




(** The exact value of a finite double. *)
Definition toQ (x : spec_float) : option Q :=
  match x with
  | S754_zero _ => Some 0
  | S754_finite s m e => Some (inject_Z (cond_Zopp s (Zpos m)) * Qpower 2 e)
  | _ => None
  end.

(** [Math.round] of a finite double. *)
Definition Math_round (x : spec_float) : option Z :=
  option_map JS.Math_round (toQ x).


End Double.



(** Property names every plain object inherits from [Object.prototype]:
    for such a key [categoryScores[qType]] is not [undefined] before
    anything is stored. *)
Definition inheritedKey (k : string) : bool :=
  existsb (String.eqb k)
    ["constructor"; "__proto__"; "hasOwnProperty"; "isPrototypeOf";
     "propertyIsEnumerable"; "toLocaleString"; "toString"; "valueOf";
     "__defineGetter__"; "__defineSetter__";
     "__lookupGetter__"; "__lookupSetter__"].

(** The demo question list of [initializeInterview]. *)
Definition mockQuestions : list Question :=
  [ mkQuestion "Tell me about yourself and your background in technology."
      (Some "hr") None;
    mkQuestion "What programming languages are you most proficient in?"
      (Some "technical") None;
    mkQuestion "Describe a challenging project you've worked on."
      (Some "project") None;
    mkQuestion "How do you handle debugging a complex issue?"
      (Some "scenario") None;
    mkQuestion "What are your career goals for the next 5 years?"
      (Some "hr") None ].

Definition recursionAnswer : string :=
  "Recursion works by breaking a problem into a base case and smaller subproblems, for example computing factorial.".

Definition recursionQuestion (text : string) (type : option string) : Question :=
  mkQuestion text type (Some ["recursion"; "base case"]).


(** ** The rest of the interview room

    The transcript handler of [startRecording], the walk through the
    questions ([initializeInterview], [askQuestion],
    [moveToNextQuestion]) and the colours the results page derives from
    a report.

    A handler belongs to one render of the component and reads the
    state constants of that render; the state setters act on the
    current state.  The timer a handler sets calls the
    [moveToNextQuestion] of the handler's own render, and with it that
    render's [endInterview]. *)

(** Space characters in a string. *)
Fixpoint countSpaces (s : string) : nat :=
  match s with
  | EmptyString => 0%nat
  | String c t => ((if Ascii.eqb c " " then 1 else 0) + countSpaces t)%nat
  end.

(** One entry of [event.results]: the transcript of its first
    alternative and its [isFinal] flag. *)
Record SpeechResult := mkResult {
  resultTranscript : string;
  isFinal : bool
}.

(** The loop of [recognition.onresult] over the results from
    [event.resultIndex] on: final and interim text, each concatenated. *)
Definition collectResults (resultIndex : nat) (results : list SpeechResult)
  : string * string :=
  fold_left
    (fun acc r =>
       if isFinal r then (fst acc ++ resultTranscript r, snd acc)
       else (fst acc, snd acc ++ resultTranscript r))
    (skipn resultIndex results) ("", "").

(** The updater [prev => prev + finalTranscript || interimTranscript]. *)
Definition onresult (resultIndex : nat) (results : list SpeechResult)
    (prev : string) : string :=
  let finalTranscript := fst (collectResults resultIndex results) in
  let interimTranscript := snd (collectResults resultIndex results) in
  match prev ++ finalTranscript with
  | EmptyString => interimTranscript
  | s => s
  end.

(** The state before any question is asked. *)
Definition initialRoom : RoomState := mkRoom None 1 "" [].

(** [askQuestion]: the question and its number are set, the transcript
    is cleared. *)
Definition askQuestion (question : option Question) (number : nat)
    (st : RoomState) : RoomState :=
  mkRoom question number "" (questionScores st).

(** What [fetch] brought: an exception, a response that is not [ok], or
    an [ok] response with its [data.questions] ([None] when absent). *)
Inductive Fetched :=
| FetchError
| NotOk
| Ok (questions : option (list Question)).

(** [initializeInterview]: the question list, the [totalQuestions] of
    the progress bar, and the room. *)
Definition initializeInterview (response : Fetched)
  : list Question * nat * RoomState :=
  match response with
  | FetchError => ([], 10%nat, initialRoom)
  | NotOk =>
      (mockQuestions, List.length mockQuestions,
       askQuestion (nth_error mockQuestions 0) 1 initialRoom)
  | Ok data =>
      let questions := match data with Some qs => qs | None => [] end in
      let total := match List.length questions with
                   | O => 10%nat
                   | n => n
                   end in
      (questions, total,
       if (0 <? List.length questions)%nat
       then askQuestion (nth_error questions 0) 1 initialRoom
       else initialRoom)
  end.

(** What [moveToNextQuestion] does: ask the next question or end the
    interview with a report. *)
Inductive Next :=
| Ask (question : option Question) (number : nat)
| Finish (report : Report).

(** [moveToNextQuestion], as a function of the render it belongs to. *)
Definition moveToNextQuestion (questions : list Question) (render : RoomState)
  : Next :=
  let nextNumber := (questionNumber render + 1)%nat in
  if (nextNumber <=? List.length questions)%nat
  then Ask (nth_error questions (nextNumber - 1)) nextNumber
  else Finish (endInterview questions (questionScores render)).

(** The timer of a handler of [render] fires in state [current]. *)
Definition timerFires (questions : list Question) (render current : RoomState)
  : RoomState + Report :=
  match moveToNextQuestion questions render with
  | Ask question number => inl (askQuestion question number current)
  | Finish report => inr report
  end.

(** A click on Skip and the timer it sets. *)
Definition skipTurn (questions : list Question) (st : RoomState)
  : RoomState + Report :=
  timerFires questions st (skipQuestion st).

(** A click that stops the recording and the timer it sets; without a
    transcript there is no timer. *)
Definition answerTurn (questions : list Question) (st : RoomState)
  : RoomState + Report :=
  match JS.trim (transcript st) with
  | EmptyString => inl st
  | _ => timerFires questions st (stopRecording st)
  end.

(** What the candidate does with a question: answer it, leaving
    [spoken] in the transcript, or skip it. *)
Inductive Event :=
| Answer (spoken : string)
| Skip.

Definition withTranscript (spoken : string) (st : RoomState) : RoomState :=
  mkRoom (currentQuestion st) (questionNumber st) spoken (questionScores st).

Definition turn (questions : list Question) (st : RoomState) (ev : Event)
  : RoomState + Report :=
  match ev with
  | Answer spoken => answerTurn questions (withTranscript spoken st)
  | Skip => skipTurn questions st
  end.

(** The event leaves an entry in the score list: a skip always does,
    an answer when its transcript is not blank. *)
Definition recorded (ev : Event) : bool :=
  match ev with
  | Skip => true
  | Answer spoken =>
      match JS.trim spoken with
      | EmptyString => false
      | _ => true
      end
  end.

(** Turns in sequence, up to the report: each click comes after the
    timer of the one before and belongs to the render of the state
    that timer left. *)
Fixpoint run (questions : list Question) (st : RoomState) (evs : list Event)
  : RoomState + Report :=
  match evs with
  | [] => inl st
  | ev :: rest =>
      match turn questions st ev with
      | inl st' => run questions st' rest
      | inr report => inr report
      end
  end.

(** The room shows question [questionNumber] of the list and holds one
    score for each question before it, in order. *)
Definition onTrack (questions : list Question) (st : RoomState) : Prop :=
  (1 <= questionNumber st <= List.length questions)%nat
  /\ map idx (questionScores st) = seq 0 (questionNumber st - 1)
  /\ currentQuestion st = nth_error questions (questionNumber st - 1).

(** Every entry is a skip with score 0. *)
Definition allSkips (scored : list ScoredAnswer) : bool :=
  forallb (fun s => skipped s && Qeq_bool (score s) 0) scored.

(** The category of a question: [q.question_type || 'general']. *)
Definition categoryOf (q : Question) : string :=
  match question_type q with
  | Some EmptyString => "general"
  | Some t => t
  | None => "general"
  end.

(** The results page ([pages/Results.tsx]): fill of the score dial and
    colour of the grade.  For a report made by [endInterview], which
    has no [performance] field, the page's [overallScore] and [grade]
    are the report's own [overall_score] and [grade]. *)
Definition dialFill (overallScore : Z) : string :=
  if (overallScore >=? 70)%Z then "#10b981"
  else if (overallScore >=? 50)%Z then "#f59e0b"
  else "#ef4444".

Definition gradeColour (grade : string) : string :=
  if String.prefix "A" grade then "text-green-400"
  else if String.prefix "B" grade then "text-blue-400"
  else if String.prefix "C" grade then "text-amber-400"
  else "text-red-400".

(** ** Facts about the primitives *)

(** Comparisons between rational constants. *)
Ltac q_const := vm_compute; first [reflexivity | intro; discriminate].

Section Rounding.

Lemma Math_round_mono (x y : Q) :
  x <= y -> (JS.Math_round x <= JS.Math_round y)%Z.
Proof.
  intros Hxy. unfold JS.Math_round.
  apply Qfloor_resp_le.
  apply Qplus_le_compat; [exact Hxy | apply Qle_refl].
Qed.

Lemma Math_round_int (z : Z) : JS.Math_round (inject_Z z) = z.
Proof.
  unfold JS.Math_round, Qfloor, inject_Z, Qplus; simpl.
  replace (z * 2 + 1)%Z with (1 + z * 2)%Z by ring.
  rewrite Z.div_add by lia. reflexivity.
Qed.

Lemma Math_round_between (a b : Z) (x : Q) :
  inject_Z a <= x <= inject_Z b ->
  (a <= JS.Math_round x <= b)%Z.
Proof.
  intros [Ha Hb]. split.
  - rewrite <- (Math_round_int a). now apply Math_round_mono.
  - rewrite <- (Math_round_int b). now apply Math_round_mono.
Qed.


Lemma clamp_range (x : Q) :
  1 <= JS.Math_max 1 (JS.Math_min 10 x) <= 10.
Proof.
  unfold JS.Math_max, JS.Math_min. split.
  - apply Q.le_max_l.
  - apply Q.max_lub; [discriminate | apply Q.le_min_l].
Qed.

End Rounding.

(** ** Facts about reconciliation and sums *)

Section Reconciliation.

Lemma find_hasIdx (i : nat) (l : list ScoredAnswer) :
  find (fun s => (idx s =? i)%nat) l = None <-> hasIdx i l = false.
Proof.
  unfold hasIdx. induction l as [| s l IH]; simpl.
  - tauto.
  - destruct (idx s =? i)%nat; simpl; [split; discriminate | exact IH].
Qed.

Lemma hasIdx_app (i : nat) (l1 l2 : list ScoredAnswer) :
  hasIdx i (l1 ++ l2) = hasIdx i l1 || hasIdx i l2.
Proof. unfold hasIdx. apply existsb_app. Qed.

Lemma reconcileStep_cases (all : list ScoredAnswer) (i : nat) :
  reconcileStep all i =
  if hasIdx i all then all else (all ++ [synthesized i])%list.
Proof.
  unfold reconcileStep.
  destruct (find _ all) eqn:F.
  - destruct (hasIdx i all) eqn:H; [reflexivity |].
    apply find_hasIdx in H. congruence.
  - apply find_hasIdx in F. now rewrite F.
Qed.

Lemma fold_reconcileStep (l : list nat) :
  NoDup l ->
  forall all,
    fold_left reconcileStep l all =
    (all ++ map synthesized (filter (fun i => negb (hasIdx i all)) l))%list.
Proof.
  induction 1 as [| i l Hi Hl IH]; intros all; simpl.
  - now rewrite app_nil_r.
  - rewrite IH, reconcileStep_cases.
    destruct (hasIdx i all) eqn:H; simpl; [reflexivity |].
    rewrite <- app_assoc. simpl. do 3 f_equal.
    apply filter_ext_in. intros j Hj.
    rewrite hasIdx_app. simpl.
    destruct (Nat.eqb_spec i j) as [-> | _]; [contradiction |].
    now rewrite !orb_false_r.
Qed.

(** The loop keeps the recorded entries, in order, and appends one
    synthesized entry per missing index. *)
Lemma reconcile_eq (questions : list Question) (scored : list ScoredAnswer) :
  reconcile questions scored =
  (scored ++ map synthesized (missing (List.length questions) scored))%list.
Proof. unfold reconcile, missing. apply fold_reconcileStep, seq_NoDup. Qed.

Lemma filter_other_length (j : nat) (l : list nat) :
  NoDup l -> In j l ->
  S (List.length (filter (fun i => negb (j =? i)%nat) l)) = List.length l.
Proof.
  induction 1 as [| x l Hx Hl IH]; simpl; [tauto |].
  intros [-> | Hj].
  - rewrite Nat.eqb_refl. simpl. f_equal.
    f_equal. rewrite <- (filter_ext_in (fun _ => true)).
    + clear. induction l; simpl; congruence.
    + intros i Hi. destruct (Nat.eqb_spec j i) as [-> | _]; [contradiction | reflexivity].
  - destruct (Nat.eqb_spec j x) as [-> | _]; [contradiction |].
    simpl. f_equal. now apply IH.
Qed.

Lemma filter_filter {A} (p q : A -> bool) (l : list A) :
  filter p (filter q l) = filter (fun x => q x && p x) l.
Proof.
  induction l as [| x l IH]; simpl; [reflexivity |].
  destruct (q x); simpl; [destruct (p x) |]; now rewrite IH.
Qed.

Lemma missing_cons (n : nat) (s : ScoredAnswer) (l : list ScoredAnswer) :
  missing n (s :: l) = filter (fun i => negb (idx s =? i)%nat) (missing n l).
Proof.
  unfold missing. rewrite filter_filter. apply filter_ext. intros i.
  unfold hasIdx. simpl. rewrite negb_orb. apply andb_comm.
Qed.

Lemma missing_In (n i : nat) (l : list ScoredAnswer) :
  In i (missing n l) <-> (i < n)%nat /\ hasIdx i l = false.
Proof.
  unfold missing. rewrite filter_In, in_seq, negb_true_iff. intuition lia.
Qed.

Lemma missing_NoDup (n : nat) (l : list ScoredAnswer) : NoDup (missing n l).
Proof. apply NoDup_filter, seq_NoDup. Qed.

Lemma missing_nil (n : nat) : missing n [] = seq 0 n.
Proof.
  unfold missing. simpl. induction (seq 0 n); simpl; congruence.
Qed.

(** With at most one entry per index and no index out of range, the
    recorded and the missing indices together number [n]. *)
Lemma recorded_plus_missing (n : nat) (scored : list ScoredAnswer) :
  wellIndexed n scored = true ->
  (List.length scored + List.length (missing n scored) = n)%nat.
Proof.
  unfold wellIndexed. rewrite andb_true_iff. intros [D R].
  induction scored as [| s l IH]; simpl.
  - now rewrite missing_nil, length_seq.
  - simpl in D, R. apply andb_true_iff in D as [Hs D].
    apply andb_true_iff in R as [Rs R].
    apply negb_true_iff in Hs. apply Nat.ltb_lt in Rs.
    specialize (IH D R).
    rewrite missing_cons.
    pose proof (filter_other_length (idx s) (missing n l)
                  (missing_NoDup n l)) as F.
    rewrite <- IH at 2. rewrite <- F; [lia |].
    apply missing_In. now split.
Qed.

Lemma fold_sum_acc (l : list ScoredAnswer) (acc : Q) :
  fold_left (fun sum s => sum + score s) l acc == acc + sumQ (map score l).
Proof.
  revert acc. induction l as [| s l IH]; intros acc; simpl.
  - ring.
  - rewrite IH. ring.
Qed.

Lemma sumScores_sumQ (l : list ScoredAnswer) :
  sumScores l == sumQ (map score l).
Proof. unfold sumScores. rewrite fold_sum_acc. ring. Qed.

Lemma sumQ_app (l1 l2 : list Q) : sumQ (l1 ++ l2) == sumQ l1 + sumQ l2.
Proof.
  induction l1 as [| x l1 IH]; simpl; [ring |]. rewrite IH. ring.
Qed.

Lemma sumScores_app (l1 l2 : list ScoredAnswer) :
  sumScores (l1 ++ l2) == sumScores l1 + sumScores l2.
Proof. rewrite !sumScores_sumQ, map_app. apply sumQ_app. Qed.

Lemma sumScores_synthesized (l : list nat) :
  sumScores (map synthesized l) == 0.
Proof.
  rewrite sumScores_sumQ.
  induction l as [| i l IH]; simpl; [reflexivity |]. rewrite IH. ring.
Qed.

(** Synthesized entries add nothing to the sum. *)
Lemma sumScores_reconcile (questions : list Question) (scored : list ScoredAnswer) :
  sumScores (reconcile questions scored) == sumScores scored.
Proof.
  rewrite reconcile_eq, sumScores_app, sumScores_synthesized. ring.
Qed.

Lemma scoreAt_cons (s : ScoredAnswer) (l : list ScoredAnswer) (i : nat) :
  scoreAt (s :: l) i = if (idx s =? i)%nat then score s else scoreAt l i.
Proof. unfold scoreAt. simpl. now destruct (idx s =? i)%nat. Qed.

Lemma scoreAt_absent (l : list ScoredAnswer) (i : nat) :
  hasIdx i l = false -> scoreAt l i = 0.
Proof.
  intros H. apply find_hasIdx in H. unfold scoreAt. now rewrite H.
Qed.

Lemma sumQ_override (f : nat -> Q) (j : nat) (a : Q) (l : list nat) :
  NoDup l -> In j l -> f j == 0 ->
  sumQ (map (fun i => if (j =? i)%nat then a else f i) l)
  == a + sumQ (map f l).
Proof.
  intros N I Z. induction N as [| x l Hx Hl IH]; simpl; [contradiction |].
  destruct I as [-> | I].
  - rewrite Nat.eqb_refl, Z.
    rewrite (map_ext_in _ f); [ring |].
    intros i Hi. destruct (Nat.eqb_spec j i) as [-> | _]; [contradiction | reflexivity].
  - destruct (Nat.eqb_spec j x) as [-> | _]; [contradiction |].
    rewrite (IH I). ring.
Qed.

(** Summing the recorded scores entry by entry or question by
    question gives the same total. *)
Lemma perQuestionTotal_eq (n : nat) (scored : list ScoredAnswer) :
  wellIndexed n scored = true ->
  perQuestionTotal n scored == sumScores scored.
Proof.
  unfold wellIndexed, perQuestionTotal. rewrite andb_true_iff. intros [D R].
  rewrite sumScores_sumQ.
  induction scored as [| s l IH]; simpl.
  - induction (seq 0 n) as [| i t IHt]; simpl; [reflexivity |].
    rewrite IHt. unfold scoreAt. simpl. ring.
  - simpl in D, R. apply andb_true_iff in D as [Hs D].
    apply andb_true_iff in R as [Rs R].
    apply negb_true_iff in Hs. apply Nat.ltb_lt in Rs.
    rewrite <- (IH D R).
    rewrite (map_ext _ _ (scoreAt_cons s l)).
    apply sumQ_override.
    + apply seq_NoDup.
    + apply in_seq. lia.
    + now rewrite scoreAt_absent.
Qed.

End Reconciliation.

(** ** The answer scorer *)

Section Scorer.

Lemma tooShort_spec (a : string) :
  tooShort (Some a) = (String.length (JS.trim a) <? 5)%nat.
Proof. destruct a; reflexivity. Qed.

Lemma evaluateAnswer_scored (a : string) (question : option Question) :
  tooShort (Some a) = false ->
  evaluateAnswer (Some a) question =
  inject_Z (JS.Math_round
              (JS.Math_max 1 (JS.Math_min 10 (weighted a question)) * 10)) / 10.
Proof. intros H. unfold evaluateAnswer. now rewrite H. Qed.

Lemma tenfold_clamp_range (x : Q) :
  inject_Z 10 <= JS.Math_max 1 (JS.Math_min 10 x) * 10 <= inject_Z 100.
Proof.
  destruct (clamp_range x) as [L U].
  split.
  - apply (Qmult_le_compat_r _ _ 10) in L; [exact L | discriminate].
  - apply (Qmult_le_compat_r _ _ 10) in U; [exact U | discriminate].
Qed.

Lemma tenth_range (k : Z) :
  (10 <= k <= 100)%Z -> 1 <= inject_Z k / 10 <= 10.
Proof.
  intros [L U]. split.
  - apply Qle_shift_div_l; [reflexivity |].
    change (1 * 10) with (inject_Z 10). now rewrite <- Zle_Qle.
  - apply Qle_shift_div_r; [reflexivity |].
    change (10 * 10) with (inject_Z 100). now rewrite <- Zle_Qle.
Qed.

End Scorer.

(** C1. The scorer has a two-tier floor.  For every question: an absent
    answer, or one whose trimmed length is below 5, scores exactly 0;
    every other answer scores within [[1, 10]], and its score is an
    integer number of tenths.  [evaluateAnswer] is a function of the
    answer and the question alone, so equal inputs give equal scores. *)
Theorem evaluateAnswer_two_tier (question : option Question) :
  evaluateAnswer None question = 0
  /\ (forall a, (String.length (JS.trim a) < 5)%nat ->
                evaluateAnswer (Some a) question = 0)
  /\ (forall a, (5 <= String.length (JS.trim a))%nat ->
                1 <= evaluateAnswer (Some a) question <= 10
                /\ exists k : Z,
                    evaluateAnswer (Some a) question == inject_Z k * (1 # 10)).
Proof.
  split; [reflexivity |]. split.
  - intros a H. unfold evaluateAnswer. rewrite tooShort_spec.
    apply Nat.ltb_lt in H. now rewrite H.
  - intros a H.
    assert (T : tooShort (Some a) = false).
    { rewrite tooShort_spec. apply Nat.ltb_ge. exact H. }
    rewrite (evaluateAnswer_scored a question T).
    set (k := JS.Math_round _).
    split.
    + apply tenth_range. apply Math_round_between, tenfold_clamp_range.
    + exists k. unfold Qdiv. reflexivity.
Qed.

Lemma evaluateAnswer_two_tier_witness :
  evaluateAnswer (Some "  ok  ") None = 0
  /\ 1 <= evaluateAnswer (Some "because") None <= 10.
Proof.
  refine (conj _ _).
  - apply (proj1 (proj2 (evaluateAnswer_two_tier None))). vm_compute. lia.
  - apply (proj2 (proj2 (evaluateAnswer_two_tier None))). vm_compute. lia.
Defined.

(** C7. The recursion example: with expected keywords "recursion" and
    "base case", the answer scores exactly 6.3.  Both keywords match
    (keyword score 10), the length score is the word count (17 pieces
    between spaces) over 10, the
    structure score is the base 4 plus 2 for "for example", and the
    weighted sum with weights 0.4/0.3/0.3 is clamped and rounded to one
    decimal. *)
Theorem evaluateAnswer_recursion_example (text : string) (type : option string) :
  let question := Some (recursionQuestion text type) in
  evaluateAnswer (Some recursionAnswer) question = 63 # 10
  /\ keywordScore recursionAnswer question == 10
  /\ wordCount recursionAnswer = 17%nat
  /\ lengthScore recursionAnswer == natQ (wordCount recursionAnswer) / 10
  /\ structureScore recursionAnswer == 4 + 2
  /\ weighted recursionAnswer question
     == 10 * (4 # 10) + (natQ (wordCount recursionAnswer) / 10) * (3 # 10)
        + 6 * (3 # 10).
Proof.
  cbv zeta. repeat split; vm_compute; reflexivity.
Qed.

(** C3. The grade bands partition the integers: 90 and above is A+, then
    A from 80, B+ from 70, B from 60, C+ from 50, C from 40, D from 30,
    and F below 30; the report's grade is the band of its overall
    score, so every score has exactly one grade. *)
Theorem grade_bands (s : Z) :
  ((90 <= s)%Z -> gradeOf s = "A+")
  /\ ((80 <= s < 90)%Z -> gradeOf s = "A")
  /\ ((70 <= s < 80)%Z -> gradeOf s = "B+")
  /\ ((60 <= s < 70)%Z -> gradeOf s = "B")
  /\ ((50 <= s < 60)%Z -> gradeOf s = "C+")
  /\ ((40 <= s < 50)%Z -> gradeOf s = "C")
  /\ ((30 <= s < 40)%Z -> gradeOf s = "D")
  /\ ((s < 30)%Z -> gradeOf s = "F")
  /\ (forall questions scored,
        overall_score (endInterview questions scored) = s ->
        grade (endInterview questions scored) = gradeOf s).
Proof.
  repeat apply conj;
    try (intros questions scored <-; reflexivity);
    unfold gradeOf; intros;
    repeat match goal with
           | |- context [(?a >=? ?b)%Z] => destruct (Z.geb_spec a b)
           end;
    try reflexivity; lia.
Qed.

Lemma grade_bands_witness :
  gradeOf 95 = "A+" /\ gradeOf 36 = "D" /\ gradeOf 0 = "F"
  /\ grade (endInterview [] []) = gradeOf 0.
Proof.
  pose proof (grade_bands 95) as H95.
  pose proof (grade_bands 36) as H36.
  pose proof (grade_bands 0) as H0.
  refine (conj _ (conj _ (conj _ _))).
  - apply H95. lia.
  - apply H36. lia.
  - apply H0. lia.
  - apply H0. vm_compute. reflexivity.
Defined.

(** ** The aggregated report *)

Section Aggregation.

Variable questions : list Question.
Variable scored : list ScoredAnswer.

Let report := endInterview questions scored.
Let n := List.length questions.

Lemma overall_score_unfold :
  overall_score report
  = JS.Math_round (avgScore n (reconcile questions scored) * 10).
Proof. reflexivity. Qed.

Lemma counts_unfold :
  questions_answered report
  = List.length (filter (fun s => negb (skipped s)) (reconcile questions scored))
  /\ questions_skipped report
     = List.length (filter (fun s => skipped s) (reconcile questions scored))
  /\ total_questions report = n.
Proof. repeat split. Qed.

Lemma category_scores_unfold :
  category_scores report
  = averageCategories (groupScores questions (reconcile questions scored)).
Proof. reflexivity. Qed.

End Aggregation.

Lemma partition_length {A} (p : A -> bool) (l : list A) :
  (List.length (filter (fun x => negb (p x)) l) + List.length (filter p l)
   = List.length l)%nat.
Proof.
  induction l as [| x l IH]; simpl; [reflexivity |].
  destruct (p x); simpl; lia.
Qed.

Lemma Math_round_comp (x y : Q) : x == y -> JS.Math_round x = JS.Math_round y.
Proof. intros E. unfold JS.Math_round. now rewrite E. Qed.

Lemma natQ_pos (n : nat) : (0 < n)%nat -> 0 < natQ n.
Proof.
  intros H. unfold natQ. change 0 with (inject_Z 0).
  rewrite <- Zlt_Qlt. lia.
Qed.

Lemma avgScore_mono (n : nat) (l1 l2 : list ScoredAnswer) :
  sumScores l1 <= sumScores l2 -> avgScore n l1 <= avgScore n l2.
Proof.
  intros H. unfold avgScore.
  destruct (Nat.ltb_spec 0 n) as [P | _]; [| apply Qle_refl].
  unfold Qdiv. apply Qmult_le_compat_r; [exact H |].
  apply Qinv_le_0_compat, Qlt_le_weak, natQ_pos, P.
Qed.

Lemma scoreAt_bounded (l : list ScoredAnswer) (i : nat) :
  scoresBounded l = true -> 0 <= scoreAt l i <= 10.
Proof.
  unfold scoresBounded, scoreAt. intros B.
  destruct (find _ l) as [s |] eqn:F.
  - apply find_some in F as [I _].
    rewrite forallb_forall in B. specialize (B s I).
    apply andb_true_iff in B as [L U].
    now rewrite !Qle_bool_iff in *.
  - split; q_const.
Qed.

Lemma sum_scoreAt_bounded (l : list ScoredAnswer) (t : list nat) :
  scoresBounded l = true ->
  0 <= sumQ (map (scoreAt l) t) <= 10 * natQ (List.length t).
Proof.
  intros B. induction t as [| i t [L U]]; simpl.
  - split; q_const.
  - destruct (scoreAt_bounded l i B) as [Li Ui].
    split.
    + change 0 with (0 + 0). now apply Qplus_le_compat.
    + unfold natQ in *. rewrite Nat2Z.inj_succ, <- Z.add_1_l, inject_Z_plus.
      setoid_replace (10 * (inject_Z 1 + inject_Z (Z.of_nat (List.length t))))
        with (10 + 10 * inject_Z (Z.of_nat (List.length t))) by ring.
      now apply Qplus_le_compat.
Qed.

Lemma perQuestionTotal_bounded (n : nat) (l : list ScoredAnswer) :
  scoresBounded l = true -> 0 <= perQuestionTotal n l <= 10 * natQ n.
Proof.
  intros B. unfold perQuestionTotal.
  pose proof (sum_scoreAt_bounded l (seq 0 n) B) as H.
  now rewrite length_seq in H.
Qed.

Lemma scaled_mean_bounded (n : nat) (total : Q) :
  (0 < n)%nat -> 0 <= total <= 10 * natQ n ->
  inject_Z 0 <= total / natQ n * 10 <= inject_Z 100.
Proof.
  intros P [L U]. pose proof (natQ_pos n P) as Hn.
  split.
  - change (inject_Z 0) with (0 * 10).
    apply Qmult_le_compat_r; [| q_const].
    apply Qle_shift_div_l; [exact Hn |].
    now rewrite Qmult_0_l.
  - change (inject_Z 100) with (10 * 10).
    apply Qmult_le_compat_r; [| q_const].
    apply Qle_shift_div_r; [exact Hn | exact U].
Qed.

Lemma overall_score_mean (questions : list Question) (scored : list ScoredAnswer) :
  (0 < List.length questions)%nat ->
  overall_score (endInterview questions scored)
  = JS.Math_round (sumScores scored / natQ (List.length questions) * 10).
Proof.
  intros P. rewrite overall_score_unfold.
  apply Math_round_comp. unfold avgScore.
  apply Nat.ltb_lt in P. rewrite P.
  now rewrite sumScores_reconcile.
Qed.

Lemma overall_score_no_questions (scored : list ScoredAnswer) :
  overall_score (endInterview [] scored) = 0%Z.
Proof. reflexivity. Qed.





(** C4, amended.  When the recorded entries carry pairwise distinct
    indices, all below the number of questions, the report satisfies
    questions_answered + questions_skipped = total_questions, the
    length of the question list: reconciliation keeps the recorded
    entries and appends one skipped entry with score 0 for each index
    without one. *)
Theorem answered_plus_skipped_is_total (questions : list Question)
    (scored : list ScoredAnswer) :
  wellIndexed (List.length questions) scored = true ->
  let r := endInterview questions scored in
  (questions_answered r + questions_skipped r)%nat = total_questions r
  /\ total_questions r = List.length questions
  /\ reconcile questions scored
     = (scored ++ map synthesized (missing (List.length questions) scored))%list.
Proof.
  intros W r.
  destruct (counts_unfold questions scored) as (A & S & T).
  fold r in A, S, T. rewrite A, S, T.
  split; [| split; [reflexivity | apply reconcile_eq]].
  rewrite partition_length, reconcile_eq, length_app, length_map.
  now apply recorded_plus_missing.
Qed.

Lemma answered_plus_skipped_is_total_witness :
  (questions_answered (endInterview mockQuestions [mkScored 2 7 false])
   + questions_skipped (endInterview mockQuestions [mkScored 2 7 false]))%nat
  = total_questions (endInterview mockQuestions [mkScored 2 7 false]).
Proof.
  refine (proj1 (answered_plus_skipped_is_total mockQuestions
                   [mkScored 2 7 false] _)).
  reflexivity.
Defined.

(** C4 as stated fails: two entries for index 0 are both counted, so
    the counts add up to 6 for 5 questions. *)
Lemma counts_exceed_total_on_duplicate :
  (questions_answered
     (endInterview mockQuestions [mkScored 0 5 false; mkScored 0 7 false])
   + questions_skipped
       (endInterview mockQuestions [mkScored 0 5 false; mkScored 0 7 false]))%nat
  <> total_questions
       (endInterview mockQuestions [mkScored 0 5 false; mkScored 0 7 false]).
Proof. vm_compute. discriminate. Qed.

(** C9. Replacing one entry by a skipped entry with score 0 for the
    same index, all other entries unchanged, never raises the overall
    score; a score of at least 0 in the replaced entry is all it
    takes. *)
Theorem skipping_never_raises_overall (questions : list Question)
    (before after : list ScoredAnswer) (e : ScoredAnswer) :
  0 <= score e ->
  (overall_score
     (endInterview questions (before ++ mkScored (idx e) 0 true :: after))
   <= overall_score (endInterview questions (before ++ e :: after)))%Z.
Proof.
  intros He. rewrite !overall_score_unfold.
  apply Math_round_mono.
  apply Qmult_le_compat_r; [| q_const].
  apply avgScore_mono.
  rewrite !sumScores_reconcile, !sumScores_app, !sumScores_sumQ. simpl.
  apply Qplus_le_compat; [apply Qle_refl |].
  apply Qplus_le_compat; [exact He | apply Qle_refl].
Qed.

Lemma skipping_never_raises_overall_witness :
  (overall_score
     (endInterview mockQuestions
        ([mkScored 0 8 false] ++ mkScored 1 0 true :: [mkScored 2 4 false]))
   <= overall_score
        (endInterview mockQuestions
           ([mkScored 0 8 false] ++ mkScored 1 6 false :: [mkScored 2 4 false])))%Z.
Proof.
  apply (skipping_never_raises_overall mockQuestions
           [mkScored 0 8 false] [mkScored 2 4 false] (mkScored 1 6 false)).
  vm_compute. intro. discriminate.
Defined.

(** ** Worked reports *)

(** C6, amended.  Without questions and without scores the average is
    taken from the guard's zero branch, no division being performed,
    and the report has overall score 0, no category scores, the
    fallback strength and the fallback weakness.  Its suggestions are
    the two that an overall score below 70 and below 50 trigger, not
    the generic fallback. *)
Theorem empty_interview_report :
  avgScore 0 (reconcile [] []) = 0
  /\ overall_score (endInterview [] []) = 0%Z
  /\ category_scores (endInterview [] []) = []
  /\ strengths (endInterview [] []) = ["Participated in the interview"]
  /\ weaknesses (endInterview [] []) = ["No major weaknesses identified"]
  /\ improvement_suggestions (endInterview [] [])
     = ["Practice answering questions out loud to improve fluency";
        "Consider taking mock interviews to build confidence"].
Proof. repeat apply conj; reflexivity. Qed.

(** C6 as stated fails: the empty interview does not get the generic
    suggestion. *)
Lemma empty_interview_not_generic_suggestion :
  improvement_suggestions (endInterview [] [])
  <> ["Continue practicing to maintain your skills"].
Proof. vm_compute. discriminate. Qed.

(** C8, amended.  Five questions, three answered with scores 8, 6 and
    4 and two skipped: the overall score is 36, the grade is D (36 is
    below the 40 that C requires), and the verdict is Not Ready.  The
    same report results whether the two skips were recorded or left to
    reconciliation. *)
Theorem five_question_example :
  let answered := [mkScored 0 8 false; mkScored 1 6 false; mkScored 2 4 false] in
  let skips := [mkScored 3 0 true; mkScored 4 0 true] in
  let r := endInterview mockQuestions (answered ++ skips) in
  overall_score r = JS.Math_round ((8 + 6 + 4 + 0 + 0) / 5 * 10)
  /\ overall_score r = 36%Z
  /\ grade r = "D"
  /\ placement_ready r = "Not Ready"
  /\ questions_answered r = 3%nat
  /\ questions_skipped r = 2%nat
  /\ endInterview mockQuestions answered = r.
Proof. cbv zeta. repeat apply conj; vm_compute; reflexivity. Qed.

(** C8 as stated fails: the grade of this interview is not C. *)
Lemma five_question_example_not_C :
  grade
    (endInterview mockQuestions
       [mkScored 0 8 false; mkScored 1 6 false; mkScored 2 4 false;
        mkScored 3 0 true; mkScored 4 0 true])
  <> "C".
Proof. vm_compute. discriminate. Qed.

(** ** Category grouping *)

Section Grouping.

Lemma pushScore_here (k : string) (x : Q) (cs : list (string * list Q)) :
  grouped k x (pushScore k x cs).
Proof.
  induction cs as [| [k' v] cs IH]; simpl.
  - exists [x]. simpl. auto.
  - destruct (String.eqb_spec k' k) as [-> | _].
    + exists (v ++ [x])%list. split; [now left | apply in_or_app; simpl; auto].
    + destruct IH as (w & I & X). exists w. split; [now right | exact X].
Qed.

Lemma pushScore_keeps (k k' : string) (x x' : Q) (cs : list (string * list Q)) :
  grouped k x cs -> grouped k x (pushScore k' x' cs).
Proof.
  intros (v & I & X).
  induction cs as [| [k0 v0] cs IH]; simpl; [contradiction |].
  destruct I as [E | I].
  - inversion E; subst k0 v0.
    destruct (String.eqb k k').
    + exists (v ++ [x'])%list. split; [now left | apply in_or_app; auto].
    + exists v. split; [now left | exact X].
  - destruct (IH I) as (w & Iw & Xw).
    destruct (String.eqb k0 k'); [exists v | exists w]; split; auto;
      now right.
Qed.

Variable questions : list Question.

Let step (cs : list (string * list Q)) (s : ScoredAnswer) :=
  pushScore (qTypeOf questions s) (score s) cs.

Lemma fold_keeps (k : string) (x : Q) (all : list ScoredAnswer) :
  forall cs, grouped k x cs -> grouped k x (fold_left step all cs).
Proof.
  induction all as [| s all IH]; intros cs G; simpl; [exact G |].
  apply IH, pushScore_keeps, G.
Qed.

(** Every entry lands in the group of its question's type. *)
Lemma groupScores_grouped (all : list ScoredAnswer) (s : ScoredAnswer) :
  In s all ->
  grouped (qTypeOf questions s) (score s) (groupScores questions all).
Proof.
  unfold groupScores. fold step. generalize (@nil (string * list Q)).
  induction all as [| t all IH]; intros cs I; simpl; [contradiction |].
  destruct I as [-> | I].
  - apply fold_keeps, pushScore_here.
  - now apply IH.
Qed.

Lemma grouped_key (k : string) (x : Q) (cs : list (string * list Q)) :
  grouped k x cs -> In k (map fst (averageCategories cs)).
Proof.
  intros (v & I & _). unfold averageCategories.
  rewrite map_map. simpl.
  change k with (fst (k, v)). now apply in_map.
Qed.

End Grouping.

(** C10. An entry whose index has no question, or whose question has no
    type or an empty one, is grouped under "general": its score joins
    that group and the report's category scores have a "general" key.
    So the key can appear although no question declares it. *)
Theorem untyped_entries_grouped_as_general :
  (forall questions scored s,
      In s (reconcile questions scored) ->
      untyped questions s ->
      qTypeOf questions s = "general"
      /\ grouped "general" (score s)
           (groupScores questions (reconcile questions scored))
      /\ In "general"
           (map fst (category_scores (endInterview questions scored))))
  /\ (exists questions scored,
         (forall q, In q questions -> question_type q <> Some "general")
         /\ In "general"
              (map fst (category_scores (endInterview questions scored)))).
Proof.
  assert (G : forall questions scored s,
             In s (reconcile questions scored) ->
             untyped questions s ->
             qTypeOf questions s = "general"
             /\ grouped "general" (score s)
                  (groupScores questions (reconcile questions scored))
             /\ In "general"
                  (map fst (category_scores (endInterview questions scored)))).
  { intros questions scored s I U.
    assert (T : qTypeOf questions s = "general").
    { unfold qTypeOf. destruct U as [-> | (q & -> & [-> | ->])]; reflexivity. }
    pose proof (groupScores_grouped questions _ s I) as Gs.
    rewrite T in Gs.
    split; [exact T | split; [exact Gs |]].
    rewrite category_scores_unfold. eapply grouped_key, Gs. }
  split; [exact G |].
  exists [mkQuestion "Why this role?" None None], [].
  split.
  - intros q [<- | []]. discriminate.
  - apply (G _ _ (synthesized 0)).
    + simpl. now left.
    + right. eexists. split; [reflexivity | now left].
Qed.

Lemma untyped_entries_grouped_as_general_witness :
  In "general"
    (map fst (category_scores
                (endInterview mockQuestions [mkScored 7 6 false]))).
Proof.
  apply (proj1 untyped_entries_grouped_as_general
           mockQuestions [mkScored 7 6 false] (mkScored 7 6 false)).
  - simpl. now left.
  - left. reflexivity.
Defined.

(** ** Repeated events for one question *)




(** ** More about the answer scorer *)

Section ScorerRanges.

Lemma split_length (sep : ascii) (s : string) :
  List.length (JS.split sep s)
  = S (List.length (filter (Ascii.eqb sep) (list_ascii_of_string s))).
Proof.
  induction s as [| c t IH]; simpl; [reflexivity |].
  rewrite (Ascii.eqb_sym sep c).
  destruct (Ascii.eqb c sep); simpl.
  - now rewrite IH.
  - destruct (JS.split sep t); simpl in *; [discriminate | exact IH].
Qed.

Lemma countSpaces_filter (s : string) :
  countSpaces s
  = List.length (filter (Ascii.eqb " ") (list_ascii_of_string s)).
Proof.
  induction s as [| c t IH]; [reflexivity |].
  cbn [countSpaces list_ascii_of_string filter].
  rewrite (Ascii.eqb_sym c " "%char).
  destruct (Ascii.eqb " " c); cbn [List.length]; now rewrite IH.
Qed.

Lemma natQ_le (m n : nat) : (m <= n)%nat -> natQ m <= natQ n.
Proof. intros H. unfold natQ. rewrite <- Zle_Qle. lia. Qed.


Lemma keywordScore_default (a : string) (question : option Question) :
  keywordsOf question = [] -> keywordScore a question = 5.
Proof. intros E. unfold keywordScore. now rewrite E. Qed.

Lemma wordCount_counts_spaces_aux (a : string) :
  wordCount a = S (countSpaces a).
Proof. unfold wordCount. now rewrite split_length, countSpaces_filter. Qed.

Lemma wordCount_pos (a : string) : (1 <= wordCount a)%nat.
Proof. unfold wordCount. rewrite split_length. lia. Qed.

Lemma lengthScore_range (a : string) : (1 # 10) <= lengthScore a <= 10.
Proof.
  unfold lengthScore, JS.Math_min. split; [| apply Q.le_min_l].
  apply Q.min_glb; [q_const |].
  pose proof (natQ_le 1 _ (wordCount_pos a)) as H.
  change (natQ 1) with 1 in H.
  apply Qle_shift_div_l; [reflexivity | lra].
Qed.

Lemma structureScore_range (a : string) : 4 <= structureScore a <= 10.
Proof.
  unfold structureScore.
  destruct (existsb _ connectives), (existsb _ enumerators),
    (30 <=? wordCount a)%nat; split; q_const.
Qed.


Lemma weighted_range_default (a : string) (question : option Question) :
  keywordsOf question = [] ->
  (323 # 100) <= weighted a question <= 8.
Proof.
  intros E. unfold weighted. rewrite (keywordScore_default a question E).
  destruct (lengthScore_range a), (structureScore_range a).
  split; lra.
Qed.

Lemma clamp_idle (x : Q) :
  1 <= x <= 10 -> JS.Math_max 1 (JS.Math_min 10 x) == x.
Proof.
  intros [L U]. unfold JS.Math_max, JS.Math_min.
  rewrite (Q.min_r 10 x U). now apply Q.max_r.
Qed.

Lemma tenths_between (lo hi : Z) (x : Q) :
  inject_Z lo <= x * 10 <= inject_Z hi ->
  inject_Z lo / 10 <= inject_Z (JS.Math_round (x * 10)) / 10 <= inject_Z hi / 10.
Proof.
  intros H. apply Math_round_between in H. destruct H as [L U].
  rewrite Zle_Qle in L, U.
  unfold Qdiv. split; apply Qmult_le_compat_r; try assumption; q_const.
Qed.

End ScorerRanges.

(** X1. The word count of the scorer is one more than the number of
    space characters of the answer, whatever lies between them. *)
Theorem wordCount_counts_spaces (a : string) :
  wordCount a = S (countSpaces a)
  /\ (forall b, wordCount (a ++ " " ++ b) = (wordCount a + wordCount b)%nat).
Proof.
  split; [apply wordCount_counts_spaces_aux |].
  intros b. rewrite !wordCount_counts_spaces_aux.
  induction a as [| c t IH]; simpl in *; [reflexivity |].
  destruct (Ascii.eqb c " "); simpl; lia.
Qed.



(** X3. When the question has no expected keywords (none given, an
    empty list, or no question at all), a scored answer gets between
    3.2 and 8. *)
Theorem no_keywords_score_range (a : string) (question : option Question) :
  keywordsOf question = [] ->
  (5 <= String.length (JS.trim a))%nat ->
  (32 # 10) <= evaluateAnswer (Some a) question <= 8.
Proof.
  intros K H.
  assert (T : tooShort (Some a) = false).
  { rewrite tooShort_spec. now apply Nat.ltb_ge. }
  destruct (weighted_range_default a question K) as [L U].
  rewrite (evaluateAnswer_scored a question T).
  rewrite (Math_round_comp _ (weighted a question * 10))
    by (rewrite clamp_idle; [reflexivity | split; lra]).
  destruct (tenths_between 32 80 (weighted a question)) as [L' U'];
    [unfold inject_Z; split; lra |].
  split; [exact L' | eapply Qle_trans; [exact U' | q_const]].
Qed.

Lemma no_keywords_score_range_witness :
  (32 # 10) <= evaluateAnswer (Some "I like it") (nth_error mockQuestions 0)
            <= 8.
Proof.
  apply (no_keywords_score_range "I like it" (nth_error mockQuestions 0)).
  - reflexivity.
  - vm_compute. lia.
Defined.

Section LetterCase.

Ltac all_chars c :=
  destruct c as [[] [] [] [] [] [] [] []]; vm_compute; reflexivity.

Lemma toLowerChar_idem (c : ascii) :
  JS.toLowerChar (JS.toLowerChar c) = JS.toLowerChar c.
Proof. all_chars c. Qed.

Lemma isWhiteSpace_lower (c : ascii) :
  JS.isWhiteSpace (JS.toLowerChar c) = JS.isWhiteSpace c.
Proof. all_chars c. Qed.

Lemma is_space_lower (c : ascii) :
  Ascii.eqb (JS.toLowerChar c) " " = Ascii.eqb c " ".
Proof. all_chars c. Qed.

Lemma toLowerCase_idem (s : string) :
  JS.toLowerCase (JS.toLowerCase s) = JS.toLowerCase s.
Proof.
  induction s as [| c t IH]; simpl; [reflexivity |].
  now rewrite toLowerChar_idem, IH.
Qed.

Lemma toLowerCase_length (s : string) :
  String.length (JS.toLowerCase s) = String.length s.
Proof. induction s; simpl; congruence. Qed.

Lemma countSpaces_lower (s : string) :
  countSpaces (JS.toLowerCase s) = countSpaces s.
Proof.
  induction s as [| c t IH]; [reflexivity |].
  cbn [JS.toLowerCase countSpaces]. now rewrite is_space_lower, IH.
Qed.

Lemma trimStart_lower (s : string) :
  JS.trimStart (JS.toLowerCase s) = JS.toLowerCase (JS.trimStart s).
Proof.
  induction s as [| c t IH]; [reflexivity |].
  cbn [JS.toLowerCase JS.trimStart]. rewrite isWhiteSpace_lower.
  destruct (JS.isWhiteSpace c); [exact IH | reflexivity].
Qed.

Lemma trimEnd_lower (s : string) :
  JS.trimEnd (JS.toLowerCase s) = JS.toLowerCase (JS.trimEnd s).
Proof.
  induction s as [| c t IH]; [reflexivity |].
  cbn [JS.toLowerCase JS.trimEnd]. rewrite IH, isWhiteSpace_lower.
  destruct (JS.trimEnd t); cbn [JS.toLowerCase]; [| reflexivity].
  now destruct (JS.isWhiteSpace c).
Qed.

Lemma trim_lower_length (s : string) :
  String.length (JS.trim (JS.toLowerCase s)) = String.length (JS.trim s).
Proof.
  unfold JS.trim.
  now rewrite trimStart_lower, trimEnd_lower, toLowerCase_length.
Qed.

Lemma evaluateAnswer_lower (a : string) (question : option Question) :
  evaluateAnswer (Some (JS.toLowerCase a)) question
  = evaluateAnswer (Some a) question.
Proof.
  unfold evaluateAnswer.
  rewrite !tooShort_spec, trim_lower_length.
  destruct (String.length (JS.trim a) <? 5)%nat; [reflexivity |].
  unfold weighted, keywordScore, lengthScore, structureScore.
  rewrite toLowerCase_idem.
  rewrite !wordCount_counts_spaces_aux.
  now rewrite countSpaces_lower.
Qed.

End LetterCase.

Lemma keywordScore_lower_keywords (a text : string) (type : option string)
    (ks : list string) :
  keywordScore a (Some (mkQuestion text type (Some (map JS.toLowerCase ks))))
  = keywordScore a (Some (mkQuestion text type (Some ks))).
Proof.
  unfold keywordScore. cbn [keywordsOf expected_keywords].
  rewrite length_map.
  replace (List.length (filter _ (map JS.toLowerCase ks)))
    with (List.length
            (filter (fun kw => JS.includes (JS.toLowerCase a) (JS.toLowerCase kw))
                    ks)); [reflexivity |].
  induction ks as [| k ks IH]; [reflexivity |].
  cbn [map filter]. rewrite toLowerCase_idem.
  destruct (JS.includes _ _); cbn [List.length]; now rewrite IH.
Qed.

(** X4. For text whose characters all lie below U+0100 (ASCII and
    Latin-1, the strings of this development, on which lower-casing
    keeps the length), the scorer ignores letter case: two answers that
    agree after lower-casing get the same score, and lower-casing the
    expected keywords of a question changes no score. *)
Theorem evaluateAnswer_ignores_case (a b : string) (question : option Question) :
  JS.toLowerCase a = JS.toLowerCase b ->
  evaluateAnswer (Some a) question = evaluateAnswer (Some b) question
  /\ (forall text type ks,
        evaluateAnswer (Some a)
          (Some (mkQuestion text type (Some (map JS.toLowerCase ks))))
        = evaluateAnswer (Some a) (Some (mkQuestion text type (Some ks)))).
Proof.
  intros E. split.
  - rewrite <- (evaluateAnswer_lower a), <- (evaluateAnswer_lower b).
    now rewrite E.
  - intros text type ks. unfold evaluateAnswer, weighted.
    now rewrite keywordScore_lower_keywords.
Qed.

Lemma evaluateAnswer_ignores_case_witness :
  evaluateAnswer (Some "BECAUSE Recursion needs a Base Case")
                 (Some (recursionQuestion "" None))
  = evaluateAnswer (Some "because recursion needs a base case")
                   (Some (recursionQuestion "" None)).
Proof.
  refine (proj1 (evaluateAnswer_ignores_case
                   "BECAUSE Recursion needs a Base Case"
                   "because recursion needs a base case" _ _)).
  reflexivity.
Defined.

(** ** More about the report *)

Section ReportFields.

Variable questions : list Question.
Variable scored : list ScoredAnswer.

Let r := endInterview questions scored.

Lemma grade_unfold : grade r = gradeOf (overall_score r).
Proof. reflexivity. Qed.

Lemma placement_unfold : placement_ready r = placementOf (overall_score r).
Proof. reflexivity. Qed.

Lemma strengths_unfold :
  strengths r
  = let s0 := fst (fold_left remarkCategory (category_scores r) ([], [])) in
    let s1 := pushIf ((questions_answered r =? total_questions r)%nat
                      && (overall_score r >=? 60)%Z)
                     "Answered all questions" s0 in
    pushIf (isEmpty s1) "Participated in the interview" s1.
Proof. reflexivity. Qed.

Lemma weaknesses_unfold :
  weaknesses r
  = let w0 := snd (fold_left remarkCategory (category_scores r) ([], [])) in
    let w1 := pushIf (0 <? questions_skipped r)%nat
                     ("Skipped " ++ JS.showNat (questions_skipped r)
                                 ++ " question(s)") w0 in
    pushIf (isEmpty w1) "No major weaknesses identified" w1.
Proof. reflexivity. Qed.

Lemma suggestions_unfold :
  improvement_suggestions r
  = let s1 := pushIf (overall_score r <? 70)%Z
                "Practice answering questions out loud to improve fluency" [] in
    let s2 := pushIf (below 60 (lookup "technical" (category_scores r)))
                "Review core technical concepts and practice coding problems" s1 in
    let s3 := pushIf (below 60 (lookup "hr" (category_scores r)))
                "Prepare STAR method responses for behavioral questions" s2 in
    let s4 := pushIf (0 <? questions_skipped r)%nat
                "Try to attempt all questions instead of skipping" s3 in
    let s5 := pushIf (overall_score r <? 50)%Z
                "Consider taking mock interviews to build confidence" s4 in
    pushIf (isEmpty s5) "Continue practicing to maintain your skills" s5.
Proof. reflexivity. Qed.

End ReportFields.

Lemma pushIf_fallback {A} (x : A) (xs : list A) :
  pushIf (isEmpty xs) x xs <> [].
Proof. destruct xs; simpl; discriminate. Qed.

Lemma pushIf_In {A} (c : bool) (x y : A) (xs : list A) :
  In y (pushIf c x xs) <-> In y xs \/ (c = true /\ y = x).
Proof.
  unfold pushIf. destruct c.
  - rewrite in_app_iff. simpl. intuition congruence.
  - intuition congruence.
Qed.

Lemma missing_reconciled (questions : list Question) (scored : list ScoredAnswer) :
  missing (List.length questions) (reconcile questions scored) = [].
Proof.
  unfold missing at 1.
  rewrite <- (filter_ext_in (fun _ => false)).
  - induction (seq 0 (List.length questions)); simpl; congruence.
  - intros i Hi. symmetry. apply negb_false_iff.
    rewrite reconcile_eq, hasIdx_app.
    destruct (hasIdx i scored) eqn:H; [reflexivity |].
    simpl. unfold hasIdx. apply existsb_exists.
    exists (synthesized i). split; [| apply Nat.eqb_refl].
    apply in_map, missing_In. apply in_seq in Hi. split; [lia | exact H].
Qed.

(** X5. After reconciliation every question index has at least one
    entry, every recorded entry is still there, and reconciling the
    result again changes nothing. *)
Theorem reconcile_complete (questions : list Question)
    (scored : list ScoredAnswer) :
  (forall i, (i < List.length questions)%nat ->
             hasIdx i (reconcile questions scored) = true)
  /\ (forall s, In s scored -> In s (reconcile questions scored))
  /\ reconcile questions (reconcile questions scored)
     = reconcile questions scored.
Proof.
  pose proof (missing_reconciled questions scored) as M.
  split; [| split].
  - intros i Hi.
    destruct (hasIdx i (reconcile questions scored)) eqn:H; [reflexivity |].
    assert (I : In i (missing (List.length questions)
                              (reconcile questions scored)))
      by (apply missing_In; now split).
    rewrite M in I. contradiction.
  - intros s Hs. rewrite reconcile_eq. apply in_or_app. now left.
  - rewrite (reconcile_eq questions (reconcile questions scored)), M.
    apply app_nil_r.
Qed.

Lemma reconcile_complete_witness :
  hasIdx 4 (reconcile mockQuestions [mkScored 1 6 false]) = true.
Proof.
  apply (proj1 (reconcile_complete mockQuestions [mkScored 1 6 false]) 4%nat).
  simpl. lia.
Defined.

(** X6. Whatever the questions and scores, the report names at least
    one strength, one weakness and one suggestion. *)
Theorem report_lists_never_empty (questions : list Question)
    (scored : list ScoredAnswer) :
  strengths (endInterview questions scored) <> []
  /\ weaknesses (endInterview questions scored) <> []
  /\ improvement_suggestions (endInterview questions scored) <> [].
Proof.
  rewrite strengths_unfold, weaknesses_unfold, suggestions_unfold.
  cbv zeta. repeat apply conj; apply pushIf_fallback.
Qed.

Ltac band_cases z :=
  unfold gradeOf, placementOf, dialFill;
  destruct (Z.geb_spec z 90), (Z.geb_spec z 80), (Z.geb_spec z 70),
    (Z.geb_spec z 60), (Z.geb_spec z 50), (Z.geb_spec z 40),
    (Z.geb_spec z 30);
  try lia.

Lemma placement_grade_bands (z : Z) :
  (placementOf z = "Ready"
   <-> gradeOf z = "A+" \/ gradeOf z = "A" \/ gradeOf z = "B+")
  /\ (placementOf z = "Needs Work"
      <-> gradeOf z = "B" \/ gradeOf z = "C+")
  /\ (placementOf z = "Not Ready"
      <-> gradeOf z = "C" \/ gradeOf z = "D" \/ gradeOf z = "F").
Proof.
  band_cases z; repeat apply conj; intros;
    repeat match goal with H : _ \/ _ |- _ => destruct H end;
    try discriminate; auto.
Qed.

(** X7. The verdict follows the grade: Ready goes with A+, A and B+,
    Needs Work with B and C+, Not Ready with C, D and F. *)
Theorem placement_follows_grade (questions : list Question)
    (scored : list ScoredAnswer) :
  let r := endInterview questions scored in
  (placement_ready r = "Ready"
   <-> grade r = "A+" \/ grade r = "A" \/ grade r = "B+")
  /\ (placement_ready r = "Needs Work"
      <-> grade r = "B" \/ grade r = "C+")
  /\ (placement_ready r = "Not Ready"
      <-> grade r = "C" \/ grade r = "D" \/ grade r = "F").
Proof.
  cbv zeta. rewrite grade_unfold, placement_unfold.
  apply placement_grade_bands.
Qed.

Lemma dial_grade_bands (z : Z) :
  (dialFill z = "#10b981" <-> placementOf z = "Ready")
  /\ (dialFill z = "#f59e0b" <-> placementOf z = "Needs Work")
  /\ (dialFill z = "#ef4444" <-> placementOf z = "Not Ready")
  /\ (gradeColour (gradeOf z) = "text-green-400" <-> (80 <= z)%Z)
  /\ (gradeColour (gradeOf z) = "text-blue-400" <-> (60 <= z < 80)%Z)
  /\ (gradeColour (gradeOf z) = "text-amber-400" <-> (40 <= z < 60)%Z)
  /\ (gradeColour (gradeOf z) = "text-red-400" <-> (z < 40)%Z).
Proof.
  band_cases z; repeat apply conj; intros;
    try (vm_compute in *; discriminate); try reflexivity; try lia.
Qed.

(** X8. On the results page the fill of the score dial agrees with the
    verdict of the report (green with Ready, amber with Needs Work, red
    with Not Ready), while the colour of the grade changes at 80, 60
    and 40. *)
Theorem results_colours (questions : list Question) (scored : list ScoredAnswer) :
  let r := endInterview questions scored in
  let z := overall_score r in
  (dialFill z = "#10b981" <-> placement_ready r = "Ready")
  /\ (dialFill z = "#f59e0b" <-> placement_ready r = "Needs Work")
  /\ (dialFill z = "#ef4444" <-> placement_ready r = "Not Ready")
  /\ (gradeColour (grade r) = "text-green-400" <-> (80 <= z)%Z)
  /\ (gradeColour (grade r) = "text-blue-400" <-> (60 <= z < 80)%Z)
  /\ (gradeColour (grade r) = "text-amber-400" <-> (40 <= z < 60)%Z)
  /\ (gradeColour (grade r) = "text-red-400" <-> (z < 40)%Z).
Proof.
  cbv zeta. rewrite grade_unfold, placement_unfold.
  apply dial_grade_bands.
Qed.

(** X9. The generic suggestion is given only on its own, and exactly
    when nothing else triggers: the overall score is at least 70,
    nothing was skipped, and neither the technical nor the hr category
    has a score below 60. *)
Theorem generic_suggestion_alone (questions : list Question)
    (scored : list ScoredAnswer) :
  let r := endInterview questions scored in
  let generic := "Continue practicing to maintain your skills" in
  (In generic (improvement_suggestions r)
   <-> improvement_suggestions r = [generic])
  /\ (improvement_suggestions r = [generic]
      <-> (70 <= overall_score r)%Z
          /\ questions_skipped r = 0%nat
          /\ below 60 (lookup "technical" (category_scores r)) = false
          /\ below 60 (lookup "hr" (category_scores r)) = false).
Proof.
  cbv zeta. rewrite suggestions_unfold. cbv zeta.
  destruct (Z.ltb_spec (overall_score (endInterview questions scored)) 70);
    destruct (Z.ltb_spec (overall_score (endInterview questions scored)) 50);
    try lia;
    destruct (below 60 (lookup "technical" _));
    destruct (below 60 (lookup "hr" _));
    destruct (questions_skipped (endInterview questions scored)) as [| k];
    cbn [Nat.ltb Nat.leb pushIf isEmpty app];
    (split; split; intros G;
     try reflexivity;
     try (repeat split; (reflexivity || lia));
     try (cbn [In] in G;
          repeat match type of G with _ \/ _ => destruct G as [G | G] end;
          (discriminate || contradiction));
     try discriminate;
     try (destruct G as (? & ? & ? & ?); (lia || discriminate));
     try (cbn [In]; auto)).
Qed.

(** X10. An answer that is not blank is recorded as answered and adds
    one to the report's count of answered questions, also when it is
    too short to score: then its entry has score 0 and is still not
    marked skipped.  A blank transcript records nothing. *)
Theorem short_answer_counts_as_answered (st : RoomState) :
  (JS.trim (transcript st) = "" -> stopRecording st = st)
  /\ (JS.trim (transcript st) <> "" ->
      (forall questions,
          questions_answered
            (endInterview questions (questionScores (stopRecording st)))
          = S (questions_answered
                 (endInterview questions (questionScores st))))
      /\ ((String.length (JS.trim (transcript st)) < 5)%nat ->
          questionScores (stopRecording st)
          = (questionScores st
               ++ [mkScored (questionNumber st - 1) 0 false])%list)).
Proof.
  unfold stopRecording. split.
  - intros E. now rewrite E.
  - intros N. destruct (JS.trim (transcript st)) eqn:T; [contradiction |].
    rewrite <- T. split.
    + intros questions.
      destruct (counts_unfold questions
                  (questionScores (setQuestionScores st
                     (mkScored (questionNumber st - 1)
                        (evaluateAnswer (Some (transcript st))
                           (currentQuestion st)) false)))) as (A1 & _).
      destruct (counts_unfold questions (questionScores st)) as (A0 & _).
      rewrite A0. etransitivity; [exact A1 |].
      cbn [setQuestionScores questionScores].
      rewrite !reconcile_eq, <- app_assoc, !filter_app, !length_app.
      cbn [filter app skipped negb List.length].
      assert (S : forall l, filter (fun s => negb (skipped s))
                              (map synthesized l) = []).
      { induction l; simpl; auto. }
      rewrite !S. simpl. lia.
    + intros L. cbn [setQuestionScores questionScores].
      unfold evaluateAnswer. rewrite tooShort_spec.
      apply Nat.ltb_lt in L. now rewrite L.
Qed.

Lemma short_answer_counts_as_answered_witness :
  questionScores (stopRecording (mkRoom None 3 " ok " []))
  = [mkScored 2 0 false].
Proof.
  refine (proj2 (proj2 (short_answer_counts_as_answered
                          (mkRoom None 3 " ok " [])) _) _).
  - vm_compute. discriminate.
  - vm_compute. lia.
Defined.

Lemma allSkips_sum (scored : list ScoredAnswer) :
  allSkips scored = true -> sumScores scored == 0.
Proof.
  intros H. rewrite sumScores_sumQ.
  induction scored as [| s l IH]; simpl; [reflexivity |].
  simpl in H. apply andb_true_iff in H as [Hs Hl].
  apply andb_true_iff in Hs as [_ Z]. apply Qeq_bool_eq in Z.
  rewrite Z, (IH Hl). reflexivity.
Qed.

Lemma allSkips_answered (questions : list Question) (scored : list ScoredAnswer) :
  allSkips scored = true ->
  filter (fun s => negb (skipped s)) (reconcile questions scored) = [].
Proof.
  intros H. rewrite reconcile_eq, filter_app.
  replace (filter _ (map synthesized _)) with (@nil ScoredAnswer)
    by (induction (missing _ _); simpl; auto).
  rewrite app_nil_r.
  induction scored as [| s l IH]; simpl; [reflexivity |].
  simpl in H. apply andb_true_iff in H as [Hs Hl].
  apply andb_true_iff in Hs as [K _]. rewrite K. simpl. now apply IH.
Qed.

(** X11. When every question is skipped, by a skip entry or by having
    no entry at all, the report has overall score 0, grade F, verdict
    Not Ready, no answered question, and says how many questions were
    skipped, both as a weakness and through the suggestion to attempt
    all questions. *)
Theorem all_skipped_report (questions : list Question)
    (scored : list ScoredAnswer) :
  questions <> [] ->
  wellIndexed (List.length questions) scored = true ->
  allSkips scored = true ->
  let r := endInterview questions scored in
  overall_score r = 0%Z
  /\ grade r = "F"
  /\ placement_ready r = "Not Ready"
  /\ questions_answered r = 0%nat
  /\ questions_skipped r = List.length questions
  /\ In ("Skipped " ++ JS.showNat (List.length questions) ++ " question(s)")
        (weaknesses r)
  /\ In "Try to attempt all questions instead of skipping"
        (improvement_suggestions r).
Proof.
  intros NE W A r.
  assert (P : (0 < List.length questions)%nat)
    by (destruct questions; [contradiction | simpl; lia]).
  assert (O : overall_score r = 0%Z).
  { unfold r. rewrite (overall_score_mean _ _ P).
    rewrite (Math_round_comp _ 0); [reflexivity |].
    rewrite (allSkips_sum scored A). unfold Qdiv. ring. }
  destruct (counts_unfold questions scored) as (CA & CS & CT).
  fold r in CA, CS, CT.
  assert (An : questions_answered r = 0%nat).
  { rewrite CA, (allSkips_answered questions scored A). reflexivity. }
  assert (Sk : questions_skipped r = List.length questions).
  { pose proof (partition_length (fun s => skipped s)
                  (reconcile questions scored)) as PL.
    cbv beta in PL. rewrite <- CA, <- CS, An, Nat.add_0_l in PL.
    rewrite PL, reconcile_eq, length_app, length_map.
    now apply recorded_plus_missing. }
  assert (Sp : (0 <? questions_skipped r)%nat = true)
    by (apply Nat.ltb_lt; lia).
  split; [exact O |].
  split; [unfold r; rewrite grade_unfold; fold r; now rewrite O |].
  split; [unfold r; rewrite placement_unfold; fold r; now rewrite O |].
  split; [exact An |]. split; [exact Sk |]. split.
  - unfold r. rewrite weaknesses_unfold. fold r. cbv zeta.
    rewrite Sp. apply pushIf_In. left. apply pushIf_In. right.
    split; [reflexivity | now rewrite Sk].
  - unfold r. rewrite suggestions_unfold. fold r. cbv zeta.
    rewrite Sp. apply pushIf_In. left. apply pushIf_In. left.
    apply pushIf_In. right. split; reflexivity.
Qed.

Lemma all_skipped_report_witness :
  overall_score (endInterview mockQuestions [mkScored 2 0 true]) = 0%Z
  /\ In "Skipped 5 question(s)"
        (weaknesses (endInterview mockQuestions [mkScored 2 0 true])).
Proof.
  pose proof (all_skipped_report mockQuestions [mkScored 2 0 true]) as H.
  refine (conj (proj1 (H _ _ _))
               (proj1 (proj2 (proj2 (proj2 (proj2 (proj2 (H _ _ _)))))))).
  all: (discriminate || reflexivity).
Defined.

(** ** More about the category scores *)

Section CategoryKeys.

Lemma pushScore_key_origin (k k' : string) (x : Q) (cs : list (string * list Q)) :
  In k' (map fst (pushScore k x cs)) -> k' = k \/ In k' (map fst cs).
Proof.
  induction cs as [| [k0 v] cs IH]; simpl.
  - intros [E | []]. now left.
  - destruct (String.eqb k0 k); simpl; [now right |].
    intros [E | I]; [right; now left |].
    destruct (IH I) as [E | J]; [now left | right; now right].
Qed.

Lemma pushScore_NoDup (k : string) (x : Q) (cs : list (string * list Q)) :
  NoDup (map fst cs) -> NoDup (map fst (pushScore k x cs)).
Proof.
  induction cs as [| [k0 v] cs IH]; simpl; intros N.
  - constructor; [intros [] | constructor].
  - inversion N as [| ? ? Hk0 N']; subst.
    destruct (String.eqb_spec k0 k) as [-> | D]; simpl.
    + now constructor.
    + constructor; [| now apply IH].
      intros I. apply pushScore_key_origin in I as [E | J]; [| contradiction].
      now apply D.
Qed.

Variable questions : list Question.

Lemma qTypeOf_categoryOf (s : ScoredAnswer) :
  qTypeOf questions s
  = match nth_error questions (idx s) with
    | Some q => categoryOf q
    | None => "general"
    end.
Proof. unfold qTypeOf, categoryOf. now destruct (nth_error _ _). Qed.

Lemma groupScores_keys (all : list ScoredAnswer) :
  NoDup (map fst (groupScores questions all))
  /\ (forall k, In k (map fst (groupScores questions all)) ->
                exists s, In s all /\ qTypeOf questions s = k).
Proof.
  unfold groupScores.
  assert (G : forall cs,
             NoDup (map fst cs) ->
             NoDup (map fst
                      (fold_left
                         (fun cs s => pushScore (qTypeOf questions s) (score s) cs)
                         all cs))
             /\ (forall k,
                   In k (map fst
                           (fold_left
                              (fun cs s =>
                                 pushScore (qTypeOf questions s) (score s) cs)
                              all cs)) ->
                   In k (map fst cs)
                   \/ exists s, In s all /\ qTypeOf questions s = k)).
  { induction all as [| s all IH]; intros cs N; simpl.
    - split; [exact N | now left].
    - destruct (IH _ (pushScore_NoDup (qTypeOf questions s) (score s) cs N))
        as [N' O].
      split; [exact N' |].
      intros k I. destruct (O k I) as [J | (t & It & Et)].
      + apply pushScore_key_origin in J as [E | J]; [| now left].
        right. exists s. split; [now left | now symmetry].
      + right. exists t. split; [now right | exact Et]. }
  destruct (G [] (NoDup_nil _)) as [N O].
  split; [exact N |].
  intros k I. destruct (O k I) as [[] | H]. exact H.
Qed.

End CategoryKeys.

Lemma averageCategories_keys (cs : list (string * list Q)) :
  map fst (averageCategories cs) = map fst cs.
Proof. unfold averageCategories. rewrite map_map. reflexivity. Qed.

Lemma hasIdx_entry (i : nat) (l : list ScoredAnswer) :
  hasIdx i l = true -> exists s, In s l /\ idx s = i.
Proof.
  unfold hasIdx. intros H. apply existsb_exists in H as (s & I & E).
  exists s. split; [exact I | now apply Nat.eqb_eq].
Qed.

(** X12. When no question has a category that names a property
    inherited from [Object.prototype], the keys of the category scores
    are pairwise distinct, the category of every question is among
    them, and every key is the category of some question or
    "general". *)
Theorem category_keys (questions : list Question) (scored : list ScoredAnswer) :
  forallb (fun q => negb (inheritedKey (categoryOf q))) questions = true ->
  let keys := map fst (category_scores (endInterview questions scored)) in
  NoDup keys
  /\ (forall q, In q questions -> In (categoryOf q) keys)
  /\ (forall k, In k keys ->
                k = "general" \/ exists q, In q questions /\ categoryOf q = k).
Proof.
  intros _.
  cbv zeta. rewrite category_scores_unfold, averageCategories_keys.
  destruct (groupScores_keys questions (reconcile questions scored)) as [N O].
  split; [exact N | split].
  - intros q Hq. apply In_nth_error in Hq as (i & Hi).
    assert (L : (i < List.length questions)%nat)
      by (apply nth_error_Some; congruence).
    assert (H : hasIdx i (reconcile questions scored) = true).
    { destruct (hasIdx i (reconcile questions scored)) eqn:E; [reflexivity |].
      assert (I : In i (missing (List.length questions)
                                (reconcile questions scored)))
        by (apply missing_In; now split).
      rewrite missing_reconciled in I. contradiction. }
    apply hasIdx_entry in H as (s & Is & Es).
    pose proof (groupScores_grouped questions _ s Is) as G.
    rewrite qTypeOf_categoryOf, Es, Hi in G.
    apply grouped_key in G. now rewrite averageCategories_keys in G.
  - intros k Hk. destruct (O k Hk) as (s & _ & E).
    rewrite qTypeOf_categoryOf in E.
    destruct (nth_error questions (idx s)) as [q |] eqn:Nq; [| now left].
    right. exists q. split; [eapply nth_error_In; eassumption | exact E].
Qed.

Lemma category_keys_witness :
  In "project"
     (map fst (category_scores (endInterview mockQuestions []))).
Proof.
  refine (proj1 (proj2 (category_keys mockQuestions [] _))
            (mkQuestion "Describe a challenging project you've worked on."
                        (Some "project") None) _).
  - reflexivity.
  - simpl. auto.
Defined.

Section CategoryBounds.

Let inRange (x : Q) : Prop := 0 <= x <= 10.

Let groupsFine (cs : list (string * list Q)) : Prop :=
  forall k v, In (k, v) cs -> v <> [] /\ Forall inRange v.

Lemma pushScore_fine (k : string) (x : Q) (cs : list (string * list Q)) :
  inRange x -> groupsFine cs -> groupsFine (pushScore k x cs).
Proof.
  intros Hx. induction cs as [| [k0 v0] cs IH]; intros F k' v; simpl.
  - intros [E | []]. inversion E; subst. split; [discriminate |].
    constructor; [exact Hx | constructor].
  - assert (F' : groupsFine cs) by (intros a b I; apply (F a b); now right).
    destruct (String.eqb k0 k); simpl.
    + intros [E | I]; [| apply (F k' v); now right].
      inversion E; subst.
      destruct (F k' v0 (or_introl eq_refl)) as [_ Fv].
      split; [destruct v0; discriminate |].
      apply Forall_app. split; [exact Fv | constructor; [exact Hx | constructor]].
    + intros [E | I]; [apply (F k' v); now left |].
      now apply (IH F' k' v).
Qed.

Lemma groupScores_fine (questions : list Question) (all : list ScoredAnswer) :
  (forall s, In s all -> inRange (score s)) ->
  groupsFine (groupScores questions all).
Proof.
  unfold groupScores.
  assert (G : forall cs, groupsFine cs ->
                         (forall s, In s all -> inRange (score s)) ->
                         groupsFine
                           (fold_left
                              (fun cs s =>
                                 pushScore (qTypeOf questions s) (score s) cs)
                              all cs)).
  { induction all as [| s all IH]; intros cs F B; simpl; [exact F |].
    apply IH.
    - apply pushScore_fine; [apply B; now left | exact F].
    - intros t It. apply B. now right. }
  intros B. apply G; [| exact B]. intros k v [].
Qed.

Lemma fold_Qplus_acc (l : list Q) (acc : Q) :
  fold_left Qplus l acc == acc + sumQ l.
Proof.
  revert acc. induction l as [| x l IH]; intros acc; simpl; [ring |].
  rewrite IH. ring.
Qed.

Lemma sumQ_bounded (l : list Q) :
  Forall inRange l -> 0 <= sumQ l <= 10 * natQ (List.length l).
Proof.
  induction 1 as [| x l [Lx Ux] _ [L U]]; simpl.
  - split; q_const.
  - unfold natQ in *. rewrite Nat2Z.inj_succ, <- Z.add_1_l, inject_Z_plus.
    change (inject_Z 1) with 1. split; lra.
Qed.

Lemma categoryAverage_bounded (v : list Q) :
  v <> [] -> Forall inRange v -> (0 <= categoryAverage v <= 100)%Z.
Proof.
  intros NE F. unfold categoryAverage.
  apply Math_round_between, scaled_mean_bounded.
  - destruct v; [contradiction | simpl; lia].
  - rewrite fold_Qplus_acc, Qplus_0_l. now apply sumQ_bounded.
Qed.

Lemma reconcile_bounded (questions : list Question) (scored : list ScoredAnswer) :
  scoresBounded scored = true ->
  forall s, In s (reconcile questions scored) -> inRange (score s).
Proof.
  intros B s. rewrite reconcile_eq, in_app_iff, in_map_iff.
  intros [I | (i & <- & _)].
  - unfold scoresBounded in B. rewrite forallb_forall in B.
    specialize (B s I). apply andb_true_iff in B as [L U].
    split; now apply Qle_bool_iff.
  - split; q_const.
Qed.

Lemma category_scores_fine (questions : list Question) (scored : list ScoredAnswer) :
  scoresBounded scored = true ->
  forall k z, In (k, z) (category_scores (endInterview questions scored)) ->
              (0 <= z <= 100)%Z.
Proof.
  intros B k z. rewrite category_scores_unfold.
  unfold averageCategories. rewrite in_map_iff.
  intros ([k' v] & E & I). inversion E; subst.
  destruct (groupScores_fine questions _ (reconcile_bounded _ _ B) k v I).
  now apply categoryAverage_bounded.
Qed.

End CategoryBounds.

Lemma lookup_In (key : string) (z : Z) (catAvg : list (string * Z)) :
  lookup key catAvg = Some z -> In (key, z) catAvg.
Proof.
  induction catAvg as [| [k v] l IH]; simpl; [discriminate |].
  destruct (String.eqb_spec k key) as [-> | _].
  - intros E. inversion E. now left.
  - intros E. right. now apply IH.
Qed.

(** X13. With every recorded score in [[0, 10]], every category score
    of the report lies in [[0, 100]]; no category average divides by
    zero, since a category only exists once it holds a score. *)
Theorem category_scores_bounded (questions : list Question)
    (scored : list ScoredAnswer) :
  scoresBounded scored = true ->
  let r := endInterview questions scored in
  (forall k z, In (k, z) (category_scores r) -> (0 <= z <= 100)%Z)
  /\ (forall k z, lookup k (category_scores r) = Some z -> (0 <= z <= 100)%Z)
  /\ (forall k v,
        In (k, v) (groupScores questions (reconcile questions scored)) ->
        v <> []).
Proof.
  intros B r. split; [| split].
  - apply category_scores_fine, B.
  - intros k z L. apply (category_scores_fine questions scored B k z).
    now apply lookup_In.
  - intros k v I.
    now destruct (groupScores_fine questions _
                    (reconcile_bounded questions scored B) k v I).
Qed.

Lemma category_scores_bounded_witness :
  lookup "hr" (category_scores
                 (endInterview mockQuestions
                    [mkScored 0 8 false; mkScored 4 (47 # 10) false]))
  = Some 64%Z
  /\ (0 <= 64 <= 100)%Z.
Proof.
  refine (conj eq_refl _).
  refine (proj1 (proj2 (category_scores_bounded mockQuestions
            [mkScored 0 8 false; mkScored 4 (47 # 10) false] _)) "hr" 64%Z _).
  - reflexivity.
  - reflexivity.
Defined.

(** ** The transcript while recording *)

Lemma prefix_append (p x : string) : String.prefix p (p ++ x) = true.
Proof.
  induction p as [| c p IH]; simpl; [now destruct x |].
  destruct (ascii_dec c c) as [_ | N]; [exact IH | now elim N].
Qed.

(** X14. A speech result never shortens the transcript: what was there
    stays as a prefix.  When the transcript or the final text of the
    result is not empty, the new transcript is the old one followed by
    the final text, and the interim text is dropped; interim text is
    taken only while the transcript and the final text are both
    empty. *)
Theorem transcript_only_grows (resultIndex : nat) (results : list SpeechResult)
    (prev : string) :
  let finalTranscript := fst (collectResults resultIndex results) in
  let interimTranscript := snd (collectResults resultIndex results) in
  String.prefix prev (onresult resultIndex results prev) = true
  /\ (prev <> "" \/ finalTranscript <> "" ->
      onresult resultIndex results prev = prev ++ finalTranscript)
  /\ (prev = "" -> finalTranscript = "" ->
      onresult resultIndex results prev = interimTranscript).
Proof.
  cbv zeta. unfold onresult.
  split; [| split].
  - destruct (prev ++ fst (collectResults resultIndex results)) eqn:E.
    + destruct prev; [| discriminate].
      now destruct (snd (collectResults resultIndex results)).
    + rewrite <- E. apply prefix_append.
  - intros N.
    destruct (prev ++ fst (collectResults resultIndex results)) eqn:E;
      [| reflexivity].
    destruct prev; [| discriminate]. simpl in E.
    destruct N as [N | N]; [now elim N | now elim N].
  - intros -> ->. reflexivity.
Qed.

Lemma transcript_only_grows_witness :
  onresult 1 [mkResult "old" true; mkResult "hello world" true] "hello"
  = "hellohello world"
  /\ onresult 0 [mkResult "hello" true; mkResult " wor" false] ""
     = "hello"
  /\ onresult 0 [mkResult "hel" false] "" = "hel".
Proof.
  refine (conj _ (conj _ _)).
  - apply (proj1 (proj2 (transcript_only_grows 1
             [mkResult "old" true; mkResult "hello world" true] "hello"))).
    left. discriminate.
  - apply (proj1 (proj2 (transcript_only_grows 0
             [mkResult "hello" true; mkResult " wor" false] ""))).
    right. discriminate.
  - apply (proj2 (proj2 (transcript_only_grows 0 [mkResult "hel" false] ""))).
    + reflexivity.
    + reflexivity.
Defined.

(** ** The walk through the questions *)

Lemma filter_none {A} (l : list A) : filter (fun _ => false) l = [].
Proof. induction l; simpl; congruence. Qed.

Section Walk.

Variable questions : list Question.

Let n := List.length questions.

Lemma hasIdx_In (i : nat) (l : list ScoredAnswer) :
  hasIdx i l = true <-> In i (map idx l).
Proof.
  unfold hasIdx. rewrite existsb_exists, in_map_iff.
  split; intros (s & A & B).
  - exists s. split; [now apply Nat.eqb_eq | exact A].
  - exists s. split; [exact B | now apply Nat.eqb_eq].
Qed.

Lemma distinctIdx_NoDup (l : list ScoredAnswer) :
  NoDup (map idx l) -> distinctIdx l = true.
Proof.
  induction l as [| s l IH]; simpl; [reflexivity |].
  intros N. inversion N as [| ? ? Hs N']; subst.
  rewrite (IH N'), andb_true_r. apply negb_true_iff.
  destruct (hasIdx (idx s) l) eqn:H; [| reflexivity].
  apply hasIdx_In in H. contradiction.
Qed.

Lemma counted_wellIndexed (k : nat) (l : list ScoredAnswer) :
  map idx l = seq 0 k -> (k <= n)%nat -> wellIndexed n l = true.
Proof.
  intros E K. unfold wellIndexed. apply andb_true_iff. split.
  - apply distinctIdx_NoDup. rewrite E. apply seq_NoDup.
  - apply forallb_forall. intros s I. apply Nat.ltb_lt.
    assert (J : In (idx s) (seq 0 k)) by (rewrite <- E; now apply in_map).
    apply in_seq in J. lia.
Qed.

Lemma missing_last (l : list ScoredAnswer) :
  (1 <= n)%nat -> map idx l = seq 0 (n - 1) -> missing n l = [(n - 1)%nat].
Proof.
  intros P E. unfold missing.
  replace n with (n - 1 + 1)%nat at 1 by lia.
  rewrite seq_app, filter_app. simpl.
  assert (F : filter (fun i => negb (hasIdx i l)) (seq 0 (n - 1)) = []).
  { rewrite <- (filter_ext_in (fun _ => false)).
    - apply filter_none.
    - intros i Hi. symmetry. apply negb_false_iff, hasIdx_In.
      now rewrite E. }
  rewrite F. simpl.
  destruct (hasIdx (n - 1) l) eqn:H; [| reflexivity].
  apply hasIdx_In in H. rewrite E in H. apply in_seq in H. lia.
Qed.

Lemma endInterview_reconcile (a b : list ScoredAnswer) :
  reconcile questions a = reconcile questions b ->
  endInterview questions a = endInterview questions b.
Proof. intros E. unfold endInterview. now rewrite E. Qed.

Lemma stale_skip_harmless (l : list ScoredAnswer) :
  (1 <= n)%nat -> map idx l = seq 0 (n - 1) ->
  reconcile questions (l ++ [mkScored (n - 1) 0 true])
  = reconcile questions l.
Proof.
  intros P E. rewrite !reconcile_eq. fold n.
  rewrite (missing_last l P E). simpl.
  replace (missing n (l ++ [mkScored (n - 1) 0 true])) with (@nil nat).
  - now rewrite app_nil_r.
  - symmetry. unfold missing.
    rewrite <- (filter_ext_in (fun _ => false)).
    + apply filter_none.
    + intros i Hi. symmetry. apply negb_false_iff, hasIdx_In.
      rewrite map_app, E. simpl. apply in_seq in Hi.
      apply in_or_app.
      destruct (Nat.eq_dec i (n - 1)) as [-> | D]; [right; now left |].
      left. apply in_seq. lia.
Qed.

Lemma recorded_answer (spoken : string) :
  recorded (Answer spoken) = true -> JS.trim spoken <> "".
Proof. simpl. destruct (JS.trim spoken); [discriminate | discriminate]. Qed.

Lemma turn_blank (st : RoomState) (spoken : string) :
  recorded (Answer spoken) = false ->
  turn questions st (Answer spoken) = inl (withTranscript spoken st).
Proof.
  simpl. unfold answerTurn. cbn [withTranscript transcript].
  destruct (JS.trim spoken); [reflexivity | discriminate].
Qed.

Lemma turn_moves_on (st : RoomState) (ev : Event) :
  onTrack questions st ->
  (questionNumber st < n)%nat ->
  recorded ev = true ->
  exists e,
    idx e = (questionNumber st - 1)%nat
    /\ turn questions st ev
       = inl (mkRoom (nth_error questions (questionNumber st))
                     (S (questionNumber st)) ""
                     (questionScores st ++ [e])%list).
Proof.
  intros (R & _ & _) L Rec.
  assert (M : forall render,
             questionNumber render = questionNumber st ->
             moveToNextQuestion questions render
             = Ask (nth_error questions (questionNumber st))
                   (S (questionNumber st))).
  { intros render E. unfold moveToNextQuestion. rewrite E. fold n.
    replace (questionNumber st + 1)%nat with (S (questionNumber st)) by lia.
    destruct (Nat.leb_spec (S (questionNumber st)) n); [| lia].
    simpl. now rewrite Nat.sub_0_r. }
  destruct ev as [spoken |].
  - apply recorded_answer in Rec.
    eexists (mkScored _ _ false). split; [reflexivity |].
    cbn [turn]. unfold answerTurn, timerFires.
    rewrite M by reflexivity. cbn [withTranscript transcript].
    destruct (JS.trim spoken) eqn:T; [contradiction |].
    unfold stopRecording. cbn [withTranscript transcript]. rewrite T.
    reflexivity.
  - eexists (mkScored _ 0 true). split; [reflexivity |].
    cbn [turn]. unfold skipTurn, timerFires. now rewrite M by reflexivity.
Qed.

Lemma turn_moves_on_track (st st' : RoomState) (e : ScoredAnswer) :
  onTrack questions st ->
  (questionNumber st < n)%nat ->
  idx e = (questionNumber st - 1)%nat ->
  st' = mkRoom (nth_error questions (questionNumber st))
               (S (questionNumber st)) "" (questionScores st ++ [e])%list ->
  onTrack questions st'.
Proof.
  intros (R & E & _) L Ie ->. unfold onTrack. simpl.
  rewrite Nat.sub_0_r. fold n. split; [lia | split; [| reflexivity]].
  rewrite map_app, E. simpl. rewrite Ie.
  replace (questionNumber st) with (questionNumber st - 1 + 1)%nat at 3 by lia.
  now rewrite seq_app.
Qed.

Lemma turn_ends (st : RoomState) (ev : Event) :
  (n <= questionNumber st)%nat ->
  recorded ev = true ->
  turn questions st ev = inr (endInterview questions (questionScores st)).
Proof.
  intros L Rec.
  assert (M : forall render,
             questionNumber render = questionNumber st ->
             questionScores render = questionScores st ->
             moveToNextQuestion questions render
             = Finish (endInterview questions (questionScores st))).
  { intros render E S. unfold moveToNextQuestion. rewrite E, S. fold n.
    destruct (Nat.leb_spec (questionNumber st + 1) n); [lia | reflexivity]. }
  destruct ev as [spoken |].
  - apply recorded_answer in Rec.
    cbn [turn]. unfold answerTurn, timerFires.
    rewrite M by reflexivity. cbn [withTranscript transcript].
    now destruct (JS.trim spoken) eqn:T; [contradiction |].
  - cbn [turn]. unfold skipTurn, timerFires. now rewrite M by reflexivity.
Qed.

Lemma last_report_counts (l : list ScoredAnswer) :
  (1 <= n)%nat -> map idx l = seq 0 (n - 1) ->
  let r := endInterview questions l in
  (questions_answered r + questions_skipped r)%nat = total_questions r
  /\ (1 <= questions_skipped r)%nat
  /\ (questions_answered r < total_questions r)%nat.
Proof.
  intros P E r.
  destruct (counts_unfold questions l) as (CA & CS & CT).
  fold r in CA, CS, CT. fold n in CT.
  pose proof (partition_length (fun s => skipped s) (reconcile questions l)) as PL.
  cbv beta in PL. rewrite <- CA, <- CS in PL.
  assert (Len : List.length (reconcile questions l) = n).
  { rewrite reconcile_eq, length_app, length_map. fold n.
    apply recorded_plus_missing, (counted_wellIndexed (n - 1)); [exact E | lia]. }
  assert (Sk : (1 <= questions_skipped r)%nat).
  { rewrite CS, reconcile_eq. fold n. rewrite (missing_last l P E).
    rewrite filter_app, length_app. simpl. lia. }
  rewrite CT. lia.
Qed.

End Walk.

Lemma onTrack_withTranscript (questions : list Question) (st : RoomState)
    (spoken : string) :
  onTrack questions st -> onTrack questions (withTranscript spoken st).
Proof. intros H. exact H. Qed.

Lemma run_stays_on_track (questions : list Question) (evs : list Event) :
  forall st,
    onTrack questions st ->
    match run questions st evs with
    | inl st' => onTrack questions st'
    | inr r =>
        (questions_answered r + questions_skipped r)%nat = total_questions r
        /\ (1 <= questions_skipped r)%nat
        /\ (questions_answered r < total_questions r)%nat
    end.
Proof.
  induction evs as [| ev evs IH]; intros st T; simpl; [exact T |].
  destruct (recorded ev) eqn:Rec.
  - destruct T as (R & E & C).
    destruct (Nat.lt_ge_cases (questionNumber st) (List.length questions))
      as [L | G].
    + destruct (turn_moves_on questions st ev (conj R (conj E C)) L Rec)
        as (e & Ie & Tn).
      rewrite Tn. apply IH.
      eapply turn_moves_on_track; [exact (conj R (conj E C)) | exact L
                                  | exact Ie | reflexivity].
    + rewrite (turn_ends questions st ev G Rec).
      assert (Q : questionNumber st = List.length questions) by lia.
      rewrite Q in E.
      apply last_report_counts; [lia | exact E].
  - destruct ev as [spoken |]; [| discriminate].
    rewrite (turn_blank questions st spoken Rec).
    apply IH, onTrack_withTranscript, T.
Qed.

(** X15. However the fetch of the questions ends, the room either has
    no questions and asks none, with the progress bar counting 10, or
    it shows the first question of a non-empty list with no score
    recorded and the progress bar counting the questions. *)
Theorem initializeInterview_start (response : Fetched) :
  let questions := fst (fst (initializeInterview response)) in
  let total := snd (fst (initializeInterview response)) in
  let st := snd (initializeInterview response) in
  (questions = [] /\ total = 10%nat /\ st = initialRoom)
  \/ (onTrack questions st
      /\ questionNumber st = 1%nat
      /\ questionScores st = []
      /\ total = List.length questions).
Proof.
  destruct response as [| | [[| q qs] |]]; cbv zeta; simpl;
    try (left; repeat split; reflexivity).
  - right. unfold onTrack. simpl. repeat split; lia.
  - right. unfold onTrack. simpl. repeat split; lia.
Qed.

(** X16. While a question other than the last is on screen, a skip or
    a non-blank answer adds one entry for that question and the timer
    shows the next question with an empty transcript; a blank answer
    changes neither the scores nor the question.  Either way the room
    still shows question [questionNumber] with one score for each
    question before it. *)
Theorem turn_keeps_track (questions : list Question) (st : RoomState)
    (ev : Event) :
  onTrack questions st ->
  (questionNumber st < List.length questions)%nat ->
  exists st',
    turn questions st ev = inl st'
    /\ onTrack questions st'
    /\ (recorded ev = true ->
        questionNumber st' = S (questionNumber st)
        /\ currentQuestion st' = nth_error questions (questionNumber st)
        /\ transcript st' = ""
        /\ exists e, idx e = (questionNumber st - 1)%nat
                     /\ questionScores st' = (questionScores st ++ [e])%list)
    /\ (recorded ev = false ->
        questionNumber st' = questionNumber st
        /\ questionScores st' = questionScores st).
Proof.
  intros T L. destruct (recorded ev) eqn:Rec.
  - destruct (turn_moves_on questions st ev T L Rec) as (e & Ie & Tn).
    eexists. split; [exact Tn |]. split.
    + eapply turn_moves_on_track; [exact T | exact L | exact Ie | reflexivity].
    + split; [| discriminate]. intros _. simpl.
      repeat split. exists e. now split.
  - destruct ev as [spoken |]; [| discriminate].
    exists (withTranscript spoken st).
    split; [now apply turn_blank |]. split; [exact T |].
    split; [discriminate |]. intros _. split; reflexivity.
Qed.

Lemma turn_keeps_track_witness :
  exists st',
    turn mockQuestions
         (askQuestion (nth_error mockQuestions 0) 1 initialRoom) Skip
    = inl st'
    /\ onTrack mockQuestions st'.
Proof.
  destruct (turn_keeps_track mockQuestions
              (askQuestion (nth_error mockQuestions 0) 1 initialRoom) Skip)
    as (st' & Tn & T & _).
  - unfold onTrack. simpl. repeat split; lia.
  - simpl. lia.
  - exists st'. now split.
Defined.

(** X17. On the last question, the timer ends the interview with the
    score list of the render in which the button was clicked, which
    does not hold the entry the click adds.  So the report after a
    non-blank answer is the very report of skipping the last question:
    the answer's score does not reach it. *)
Theorem last_answer_is_lost (questions : list Question) (st : RoomState)
    (ev : Event) :
  onTrack questions st ->
  questionNumber st = List.length questions ->
  recorded ev = true ->
  turn questions st ev = inr (endInterview questions (questionScores st))
  /\ turn questions st ev = turn questions st Skip
  /\ endInterview questions (questionScores st)
     = endInterview questions (questionScores (skipQuestion st))
  /\ (1 <= questions_skipped (endInterview questions (questionScores st)))%nat.
Proof.
  intros (R & E & C) Q Rec.
  assert (G : (List.length questions <= questionNumber st)%nat) by lia.
  split; [now apply turn_ends |]. split; [| split].
  - now rewrite !turn_ends.
  - apply endInterview_reconcile. symmetry.
    cbn [skipQuestion setQuestionScores questionScores].
    rewrite Q in *. apply stale_skip_harmless; [lia | exact E].
  - rewrite Q in E. apply last_report_counts; [lia | exact E].
Qed.

Lemma last_answer_is_lost_witness :
  turn [mkQuestion "Why this role?" (Some "hr") None]
       (askQuestion (Some (mkQuestion "Why this role?" (Some "hr") None))
                    1 initialRoom)
       (Answer "because I would first learn and then lead, for example")
  = turn [mkQuestion "Why this role?" (Some "hr") None]
         (askQuestion (Some (mkQuestion "Why this role?" (Some "hr") None))
                      1 initialRoom)
         Skip.
Proof.
  refine (proj1 (proj2 (last_answer_is_lost
            [mkQuestion "Why this role?" (Some "hr") None]
            (askQuestion (Some (mkQuestion "Why this role?" (Some "hr") None))
                         1 initialRoom)
            (Answer "because I would first learn and then lead, for example")
            _ _ _))).
  - unfold onTrack. simpl. repeat split; lia.
  - reflexivity.
  - reflexivity.
Defined.

(** X18. A sequence of answers and skips, one timer after each, keeps
    the room on track until the timer of the last question ends the
    interview.  The report it then produces counts every question
    once, answered or skipped, and counts at least one as skipped, so
    the answered questions never number all of them. *)
Theorem run_report_counts (questions : list Question) (st : RoomState)
    (evs : list Event) :
  onTrack questions st ->
  (forall st', run questions st evs = inl st' -> onTrack questions st')
  /\ (forall r, run questions st evs = inr r ->
        (questions_answered r + questions_skipped r)%nat = total_questions r
        /\ (1 <= questions_skipped r)%nat
        /\ (questions_answered r < total_questions r)%nat).
Proof.
  intros T. pose proof (run_stays_on_track questions evs st T) as H.
  split.
  - intros st' E. now rewrite E in H.
  - intros r E. now rewrite E in H.
Qed.

Lemma run_report_counts_witness :
  (questions_answered
     (endInterview mockQuestions
        [mkScored 0 (47 # 10) false; mkScored 1 0 true;
         mkScored 2 (47 # 10) false; mkScored 3 (47 # 10) false])
   < 5)%nat.
Proof.
  refine (proj2 (proj2 (proj2 (run_report_counts mockQuestions
            (askQuestion (nth_error mockQuestions 0) 1 initialRoom)
            [Answer "I would first reproduce the issue because guessing wastes time";
             Skip;
             Answer "   ";
             Answer "I would first reproduce the issue because guessing wastes time";
             Answer "I would first reproduce the issue because guessing wastes time";
             Answer "I would first reproduce the issue because guessing wastes time"]
            _) _ _))).
  - unfold onTrack. simpl. repeat split; lia.
  - vm_compute. reflexivity.
Defined.

Lemma evaluateAnswer_bounded (answer : option string) (question : option Question) :
  0 <= evaluateAnswer answer question <= 10.
Proof.
  destruct answer as [a |]; [| split; q_const].
  destruct (tooShort (Some a)) eqn:T.
  - unfold evaluateAnswer. rewrite T. split; q_const.
  - rewrite (evaluateAnswer_scored a question T).
    destruct (tenth_range
                (JS.Math_round
                   (JS.Math_max 1 (JS.Math_min 10 (weighted a question)) * 10)))
      as [L U].
    + apply Math_round_between, tenfold_clamp_range.
    + split; [lra | exact U].
Qed.

Lemma scoresBounded_snoc (l : list ScoredAnswer) (e : ScoredAnswer) :
  scoresBounded l = true -> 0 <= score e <= 10 ->
  scoresBounded (l ++ [e]) = true.
Proof.
  intros B [L U]. unfold scoresBounded in *.
  rewrite forallb_app, B. simpl.
  apply Qle_bool_iff in L, U. now rewrite L, U.
Qed.

Lemma overall_in_range (questions : list Question) (scored : list ScoredAnswer) :
  wellIndexed (List.length questions) scored = true ->
  scoresBounded scored = true ->
  (0 <= overall_score (endInterview questions scored) <= 100)%Z.
Proof.
  intros W B. destruct questions as [| q qs] eqn:Q.
  - rewrite overall_score_no_questions. lia.
  - rewrite <- Q in *.
    assert (P : (0 < List.length questions)%nat) by (rewrite Q; simpl; lia).
    rewrite (overall_score_mean _ _ P).
    apply Math_round_between.
    rewrite <- (perQuestionTotal_eq _ _ W).
    apply scaled_mean_bounded; [exact P |].
    now apply perQuestionTotal_bounded.
Qed.

Lemma turn_entry_bounded (questions : list Question) (st : RoomState) (ev : Event) :
  scoresBounded (questionScores st) = true ->
  match turn questions st ev with
  | inl st' => scoresBounded (questionScores st') = true
  | inr _ => True
  end.
Proof.
  intros B. destruct ev as [spoken |]; cbn [turn].
  - unfold answerTurn. cbn [withTranscript transcript].
    destruct (JS.trim spoken) eqn:T; [exact B |].
    unfold timerFires.
    destruct (moveToNextQuestion _ _); [| exact I].
    unfold stopRecording. cbn [withTranscript transcript]. rewrite T.
    cbn [askQuestion setQuestionScores questionScores].
    apply scoresBounded_snoc; [exact B | apply evaluateAnswer_bounded].
  - unfold skipTurn, timerFires.
    destruct (moveToNextQuestion _ _); [| exact I].
    cbn [askQuestion skipQuestion setQuestionScores questionScores].
    apply scoresBounded_snoc; [exact B | split; q_const].
Qed.

Lemma run_ends_from (questions : list Question) (evs : list Event) :
  forall st r,
    onTrack questions st ->
    scoresBounded (questionScores st) = true ->
    run questions st evs = inr r ->
    exists last,
      onTrack questions last
      /\ scoresBounded (questionScores last) = true
      /\ questionNumber last = List.length questions
      /\ r = endInterview questions (questionScores last).
Proof.
  induction evs as [| ev evs IH]; intros st r T B; simpl; [discriminate |].
  pose proof (turn_entry_bounded questions st ev B) as TB.
  destruct (recorded ev) eqn:Rec.
  - destruct (Nat.lt_ge_cases (questionNumber st) (List.length questions))
      as [L | G].
    + destruct (turn_moves_on questions st ev T L Rec) as (e & Ie & Tn).
      rewrite Tn in *. apply IH; [| exact TB].
      eapply turn_moves_on_track; [exact T | exact L | exact Ie | reflexivity].
    + rewrite (turn_ends questions st ev G Rec). intros E.
      inversion E; subst r. exists st.
      destruct T as (R & E' & C).
      repeat split; try assumption; lia.
  - destruct ev as [spoken |]; [| discriminate].
    rewrite (turn_blank questions st spoken Rec) in *.
    apply IH; [apply onTrack_withTranscript, T | exact TB].
Qed.

(** X19. In every interview that the timer of the last question ends,
    the scores handed to the report are well indexed and lie in
    [[0, 10]]: the overall score and every category score of the
    report lie in [[0, 100]]. *)
Theorem run_report_in_range (questions : list Question) (st : RoomState)
    (evs : list Event) (r : Report) :
  onTrack questions st ->
  scoresBounded (questionScores st) = true ->
  run questions st evs = inr r ->
  (0 <= overall_score r <= 100)%Z
  /\ (forall k z, In (k, z) (category_scores r) -> (0 <= z <= 100)%Z).
Proof.
  intros T B E.
  destruct (run_ends_from questions evs st r T B E)
    as (last & (R & Ix & _) & Bl & Q & ->).
  split.
  - apply overall_in_range; [| exact Bl].
    apply (counted_wellIndexed questions (questionNumber last - 1));
      [exact Ix | lia].
  - now apply category_scores_fine.
Qed.

Lemma run_report_in_range_witness :
  (0 <= overall_score
          (endInterview mockQuestions
             [mkScored 0 0 true; mkScored 1 (47 # 10) false;
              mkScored 2 0 true; mkScored 3 0 false]) <= 100)%Z.
Proof.
  refine (proj1 (run_report_in_range mockQuestions
            (askQuestion (nth_error mockQuestions 0) 1 initialRoom)
            [Skip;
             Answer "I would first reproduce the issue because guessing wastes time";
             Skip; Answer "ok"; Skip]
            _ _ _ _)).
  - unfold onTrack. simpl. repeat split; lia.
  - reflexivity.
  - vm_compute. reflexivity.
Defined.

Lemma filter_all {A} (p : A -> bool) (l : list A) :
  (forall x, In x l -> p x = true) -> filter p l = l.
Proof.
  induction l as [| x l IH]; simpl; intros H; [reflexivity |].
  rewrite (H x (or_introl eq_refl)). f_equal. apply IH.
  intros y Hy. apply H. now right.
Qed.

Lemma missing_rest (n k : nat) (l : list ScoredAnswer) :
  map idx l = seq 0 k -> (k <= n)%nat -> missing n l = seq k (n - k).
Proof.
  intros E K. unfold missing.
  replace n with (k + (n - k))%nat at 1 by lia.
  rewrite seq_app, filter_app. simpl.
  rewrite <- (filter_ext_in (fun _ => false)
                (fun i => negb (hasIdx i l)) (seq 0 k)).
  - rewrite filter_none. simpl. apply filter_all.
    intros i Hi. apply negb_true_iff.
    destruct (hasIdx i l) eqn:H; [| reflexivity].
    apply hasIdx_In in H. rewrite E in H. apply in_seq in H, Hi. lia.
  - intros i Hi. symmetry. apply negb_false_iff, hasIdx_In. now rewrite E.
Qed.

(** X20. When the End Interview button is pressed while the room is on
    track, the report counts every question once, answered or skipped;
    the question on screen and all after it are among the skipped, and
    the answered ones are at most the questions already passed. *)
Theorem end_button_report (questions : list Question) (st : RoomState) :
  onTrack questions st ->
  let r := endInterview questions (questionScores st) in
  (questions_answered r + questions_skipped r)%nat = total_questions r
  /\ total_questions r = List.length questions
  /\ (List.length questions - (questionNumber st - 1)
      <= questions_skipped r)%nat
  /\ (questions_answered r <= questionNumber st - 1)%nat.
Proof.
  intros (R & E & _) r.
  destruct (counts_unfold questions (questionScores st)) as (CA & CS & CT).
  fold r in CA, CS, CT.
  pose proof (partition_length (fun s => skipped s)
                (reconcile questions (questionScores st))) as PL.
  cbv beta in PL. rewrite <- CA, <- CS in PL.
  assert (K : (questionNumber st - 1 <= List.length questions)%nat) by lia.
  pose proof (missing_rest _ _ _ E K) as M.
  assert (Len : List.length (reconcile questions (questionScores st))
                = List.length questions).
  { rewrite reconcile_eq, length_app, length_map.
    apply recorded_plus_missing, (counted_wellIndexed questions _ _ E K). }
  assert (Sk : (List.length questions - (questionNumber st - 1)
                <= questions_skipped r)%nat).
  { rewrite CS, reconcile_eq, M, filter_app, length_app.
    rewrite (filter_all (fun s => skipped s) (map synthesized _)).
    - rewrite length_map, length_seq. lia.
    - intros s Hs. apply in_map_iff in Hs as (i & <- & _). reflexivity. }
  rewrite CT. repeat split; lia.
Qed.

Lemma end_button_report_witness :
  (5 - (2 - 1)
   <= questions_skipped (endInterview mockQuestions [mkScored 0 8 false]))%nat.
Proof.
  refine (proj1 (proj2 (proj2 (end_button_report mockQuestions
            (mkRoom (nth_error mockQuestions 1) 2 "" [mkScored 0 8 false])
            _)))).
  unfold onTrack. simpl. repeat split; lia.
Defined.
